(** * tsd-file-api: streaming uploads, resumables and range downloads

    A shallow embedding of [tsdfileapi/api.py].  Each handler method is
    written as a function over an explicit world (file system, resumable
    store, handler attributes); Python exceptions are values, so that the
    [try]/[except] structure of the source can be followed clause by
    clause. *)

From Stdlib Require Import ZArith Lia.
From Stdlib.Strings Require Import Ascii Byte.
From stdpp Require Import base option list strings gmap sorting pretty.

Local Open Scope Z_scope.

(** Contents of a file: a sequence of bytes. *)
Definition bytes := list byte.

(** [s.split(c)] for a separator of one character: the pieces between the
    occurrences of [c], empty ones included. *)
Fixpoint split_on (c : ascii) (s : string) : list string :=
  match s with
  | EmptyString => [EmptyString]
  | String a s' =>
    if Ascii.eqb a c then EmptyString :: split_on c s'
    else match split_on c s' with
         | [] => [String a EmptyString]
         | piece :: pieces => String a piece :: pieces
         end
  end.

(** ** Token validation: [AuthRequestHandler] *)

Module AuthRequestHandler.

(** The dictionary [verify_json_web_token] returns, as far as
    [validate_token] and its callers read it. A key that may be missing is
    an option: reading it then raises [KeyError]. *)
Record claims := Claims {
  c_user : option string;
  c_groups : option (list string) }.
Record authnz := Authnz {
  a_status : bool;
  a_claims : option claims;
  a_reason : option string }.

(** What [validate_token] reads of the request: the [Authorization]
    header and [pnum_from_url(self.request.uri)] ([None] when that raises). *)
Record request := Request {
  authorization : option string;
  uri_pnum : option string }.

(** [_status_code] and the attributes [validate_token] assigns ([None]:
    not assigned so far). *)
Record handler := Handler {
  status_code : Z;
  message : option string;
  jwt : option string;
  pnum : option string;
  claims_of : option claims;
  user : option string }.

Definition set_status (s : Z) (h : handler) : handler :=
  Handler s (message h) (jwt h) (pnum h) (claims_of h) (user h).
Definition set_message (m : string) (h : handler) : handler :=
  Handler (status_code h) (Some m) (jwt h) (pnum h) (claims_of h) (user h).
Definition set_jwt (t : string) (h : handler) : handler :=
  Handler (status_code h) (message h) (Some t) (pnum h) (claims_of h) (user h).
Definition set_pnum (p : string) (h : handler) : handler :=
  Handler (status_code h) (message h) (jwt h) (Some p) (claims_of h) (user h).
Definition set_claims (c : claims) (h : handler) : handler :=
  Handler (status_code h) (message h) (jwt h) (pnum h) (Some c) (user h).
Definition set_user (u : string) (h : handler) : handler :=
  Handler (status_code h) (message h) (jwt h) (pnum h) (claims_of h) (Some u).

Section ValidateToken.

Context {secret : Type}.
(** [CONFIG['use_secret_store']]; [options.secret] ([None]: no such option
    is defined, reading it raises); [options.secret_store];
    [_VALID_PNUM.match]; [auth.verify_json_web_token] ([None] when it
    raises). *)
Variable use_secret_store : bool.
Variable options_secret : option secret.
Variable secret_store : gmap string secret.
Variable valid_pnum : string → bool.
Variable verify_json_web_token : string → secret → list string → string → option authnz.

(** The last [except] clause. [self.status] was set to [None] on the
    first line and nothing assigns it afterwards ([set_status] writes
    [_status_code]), so the status becomes 401 whatever was set before. *)
Definition unauthorized (h : handler) : option authnz * handler :=
  (None, set_status 401 h).

(** [validate_token(roles_allowed)]: the dictionary it returns, or [None]
    when it raises. *)
Definition validate_token (rq : request) (roles_allowed : list string) (h : handler)
    : option authnz * handler :=
  match authorization rq with
  | None => unauthorized (set_status 400 (set_message "Missing authorization header" h))
  | Some auth_header =>
    match split_on " "%char auth_header !! 1%nat with
    | None => unauthorized (set_status 400 (set_message "Malformed authorization header" h))
    | Some token =>
      let h := set_jwt token h in
      (* the secret, with the local [pnum] when that was bound *)
      let '(project_specific_secret, h) :=
        if negb use_secret_store then ((λ s, (s, None)) <$> options_secret, h)
        else
          match uri_pnum rq with
          | None => (None, h)
          | Some pnum =>
            if negb (valid_pnum pnum) then (None, set_status 400 h)
            else ((λ s, (s, Some pnum)) <$> secret_store !! pnum, set_pnum pnum h)
          end in
      match project_specific_secret with
      | None => unauthorized (set_status 500 h)
      | Some (_, None) =>
        (* [pnum] is unbound at the call; so is [authnz] in the handler *)
        unauthorized h
      | Some (project_specific_secret, Some pnum) =>
        match verify_json_web_token auth_header project_specific_secret roles_allowed pnum with
        | None => unauthorized h               (* [authnz] is unbound in the handler *)
        | Some authnz =>
          (* [except Exception: self.message = authnz['reason']; set_status(401); raise] *)
          let refuse h :=
            match a_reason authnz with
            | Some reason => unauthorized (set_status 401 (set_message reason h))
            | None => unauthorized h
            end in
          match a_claims authnz with
          | None => refuse h
          | Some claims =>
            let h := set_claims claims h in
            match c_user claims with
            | None => refuse h
            | Some user =>
              let h := set_user user h in
              if a_status authnz then (Some authnz, h)
              else refuse (set_status 401 h)
            end
          end
        end
      end
    end
  end.

End ValidateToken.

End AuthRequestHandler.

(** ** The export side: [FileStreamerHandler] *)

Module Download.

(** What [os.stat] and [open(..., "rb")] see of an exported file. The
    modification time is a Python float; only [str(mtime)] is ever used, so
    its type is left open. *)
Record file (T : Type) := File { f_data : bytes; f_mtime : T }.
Arguments File {T} _ _.
Arguments f_data {T} _.
Arguments f_mtime {T} _.

Definition st_size {T} (f : file T) : Z := Z.of_nat (length (f_data f)).

(** One entry of [CONFIG['export_policy']]. [allowed_mime_types] holds
    ["*"] to allow everything; [max_size] is [None] when unset. *)
Record policy := Policy {
  enabled : bool;
  allowed_mime_types : list string;
  max_size : option Z }.

(** The parts of a [Range] header the handler looks at after
    [split('=')[-1].split('-')]: whether a [','] element was found, and the
    results of the two [int(...)] calls ([None] when [int] raises or the
    element is missing). *)
Record range_header := Range {
  multipart : bool;
  client_start : option Z;
  client_end : option Z }.

(** Outcome of [validate_token] as far as [get] is concerned. *)
Inductive authnz := Authorized (user : string) | Rejected.

Record request := Request {
  rq_authnz : authnz;
  rq_pnum : string;
  rq_pnum_valid : bool;              (* _VALID_PNUM.match(pnum) *)
  rq_filename : option string;       (* None: list the directory *)
  rq_range : option range_header;    (* the 'Range' header *)
  rq_if_range : option string }.     (* the 'If-Range' header *)

(** What the client gets: the status line, the two headers [get] sets, the
    bytes written with [self.write(data)], and the JSON message written by
    the [except] clause, if any. *)
Record response := Response {
  status : Z;
  content_type : option string;
  content_length : option Z;
  body : bytes;
  message : option string }.

Definition msg_unknown : string := "Unknown error, please contact TSD".
Definition msg_subdir : string :=
  "Not allowed to access files in sub-directories, create a zip archive".
Definition msg_missing : string := "File does not exist".
Definition msg_changed : string :=
  "The resource has changed, get everything from the start again".
Definition msg_multipart : string := "Multipart byte range requests not supported".
Definition msg_too_many : string := "too many files, create a zip archive".
Definition msg_directory : string := "exporting from directories not supported yet".

(** What [head] sends: the status line, the two headers it sets, and
    whether the [except] clause wrote [self.message] as the body. *)
Record head_response := HeadResponse {
  h_status : Z;
  h_content_length : option Z;
  h_accept_ranges : option string;
  h_error : bool }.

(** An entry of the export directory as [list_files] stats it: a file, or
    a directory with its mtime; both with the owner's login name
    ([pwd.getpwuid(st_uid).pw_name]). *)
Inductive listed (T : Type) :=
| ListedFile (f : file T) (owner : string)
| ListedDir (mtime : T) (owner : string).
Arguments ListedFile {T} _ _.
Arguments ListedDir {T} _ _.

(** One element of the ['files'] list that [list_files] writes. *)
Record file_info := FileInfo {
  fi_filename : string;
  fi_size : option Z;
  fi_modified_date : string;
  fi_href : string;
  fi_exportable : option bool;
  fi_reason : option string;
  fi_mime_type : option string;
  fi_owner : string }.

Section FileStreamerHandler.

Context {T : Type}.
(** [str(mtime)] and [hashlib.md5(s.encode('utf-8')).hexdigest()]. *)
Variable str : T → string.
Variable md5_hexdigest : string → string.
(** [utils.check_filename]: the secured name, or [None] when it raises. *)
Variable check_filename : string → option string.
(** [magic.from_file(filename, mime=True)]. *)
Variable magic_from_file : file T → string.
(** [CONFIG['export_chunk_size']], [CONFIG['export_policy']] with its
    ['default'] entry, [CONFIG['export_max_size']]. *)
Variable export_chunk_size : Z.
Variable export_policy : gmap string policy.
Variable default_policy : policy.
Variable export_max_size : Z.

(** [compute_etag]: [None] when there is no file to stat. *)
Definition compute_etag (filepath : option (file T)) : option string :=
  match filepath with
  | Some f => Some (md5_hexdigest (str (f_mtime f)))
  | None => None
  end.

(** [enforce_export_policy]: (is_conformant, mime-type, size) and the
    message left in [self.message] ([None]: message untouched). *)
Definition enforce_export_policy (filename : string) (f : file T) (pnum : string)
    : bool * option string * option Z * option string :=
  match check_filename filename with
  | None => (false, None, None, Some ("Illegal export filename: " +:+ filename))
  | Some _ =>
    let mime_type := magic_from_file f in
    let size := st_size f in
    let policy := default (default_policy) (export_policy !! pnum) in
    if negb (enabled policy) then (true, Some mime_type, Some size, None)
    else
      let '(status, msg) :=
        if bool_decide ("*" ∈ allowed_mime_types policy) then (true, None)
        else if bool_decide (mime_type ∈ allowed_mime_types policy) then (true, None)
        else (false, Some ("not allowed to export file with MIME type: " +:+ mime_type)) in
      match max_size policy with
      | Some mx =>
        if (mx =? 0) then (status, Some mime_type, Some size, msg)
        else if size >? mx then
          (false, Some mime_type, Some size,
           Some ("File size exceeds maximum allowed for " +:+ pnum +:+ ": "
                 +:+ pretty (export_max_size / 1024 / 1024 / 1024) +:+ " Gigabyte"))
        else (status, Some mime_type, Some size, msg)
      | None => (status, Some mime_type, Some size, msg)
      end
  end.

(** [fd.read(n)] at offset [pos]: up to [n] bytes, everything that is
    left when [n] is negative. *)
Definition read (data : bytes) (pos : nat) (n : Z) : bytes :=
  if n <? 0 then drop pos data else take (Z.to_nat n) (drop pos data).

(** The loop of the no-[Range] branch:
    [while data: write(data); flush(); data = fd.read(CHUNK_SIZE)]. *)
Fixpoint stream_all (fuel : nat) (chunk : Z) (data : bytes) (pos : nat)
    (cur : bytes) (out : bytes) : bytes :=
  match fuel with
  | O => out
  | S fuel' =>
    match cur with
    | [] => out
    | _ =>
      let next := read data pos chunk in
      stream_all fuel' chunk data (pos + length next)%nat next (out ++ cur)
    end
  end.

(** The loop of the [Range] branch:
    [while data and sent <= bytes_to_read:
         write(data); flush(); data = fd.read(CHUNK_SIZE); sent = sent + CHUNK_SIZE]. *)
Fixpoint stream_range (fuel : nat) (chunk bytes_to_read : Z) (data : bytes)
    (pos : nat) (cur : bytes) (sent : Z) (out : bytes) : bytes :=
  match fuel with
  | O => out
  | S fuel' =>
    match cur with
    | [] => out
    | _ =>
      if sent <=? bytes_to_read then
        let next := read data pos chunk in
        stream_range fuel' chunk bytes_to_read data (pos + length next)%nat
                     next (sent + chunk) (out ++ cur)
      else out
    end
  end.

(** Every pass of either loop consumes at least one byte of the file or
    is the last one, so [S (length data)] passes are always enough. *)
Definition loop_fuel (data : bytes) : nat := S (S (length data)).

Definition failed (st : Z) (ct : option string) (cl : option Z) (m : string) : response :=
  Response st ct cl [] (Some m).

(** The [Range] branch of [get], from the [If-Range] test on. *)
Definition get_range (f : file T) (mime : option string) (rq : request)
    (r : range_header) : response :=
  let stale :=
    match rq_if_range rq with
    | Some provided_etag =>
      bool_decide (Some provided_etag ≠ compute_etag (Some f))
    | None => false
    end in
  if stale then failed 400 mime None msg_changed
  else
    let full_file_size := st_size f in
    if multipart r then failed 405 mime None msg_multipart
    else
      match client_start r with
      | None => failed 200 mime None msg_unknown       (* int() raised *)
      | Some client_start =>
        let client_end := default (full_file_size - 1) (client_end r) in
        if client_end >? full_file_size then failed 416 mime None msg_unknown
        else
          let bytes_to_read := client_end - client_start + 1 in
          let chunk_size :=
            if export_chunk_size >? bytes_to_read then bytes_to_read
            else export_chunk_size in
          let cursor_start := Z.to_nat client_start in
          let data := read (f_data f) cursor_start chunk_size in
          Response 200 mime (Some bytes_to_read)
            (stream_range (loop_fuel (f_data f)) chunk_size bytes_to_read (f_data f)
               (cursor_start + length data)%nat data chunk_size [])
            None
      end.

(** [get], serving one file ([filename] given) out of the export
    directory [dir] (file name to file). The directory listing
    ([list_files]) is outside this model: [None] stands for it. *)
Definition get (dir : gmap string (file T)) (rq : request) : option response :=
  match rq_authnz rq with
  | Rejected => Some (failed 401 None None msg_unknown)
  | Authorized user =>
    if negb (rq_pnum_valid rq) then Some (failed 200 None None msg_unknown)
    else
      match rq_filename rq with
      | None => None
      | Some filename =>
        match check_filename filename with
        | None => Some (failed 403 None None msg_subdir)
        | Some secured_filename =>
          match dir !! secured_filename with
          | None => Some (failed 404 None None msg_missing)
          | Some f =>
            let '(ok, mime_type, size, msg) :=
              enforce_export_policy secured_filename f (rq_pnum rq) in
            if negb ok then Some (failed 400 None None (default msg_unknown msg))
            else
              match rq_range rq with
              | None =>
                let data := read (f_data f) 0 export_chunk_size in
                Some (Response 200 mime_type size
                        (stream_all (loop_fuel (f_data f)) export_chunk_size (f_data f)
                           (length data) data [])
                        None)
              | Some r => Some (get_range f mime_type rq r)
              end
          end
        end
      end
  end.

(** [head]. A file that fails the export policy makes [assert status]
    raise: the message is written and the status stays what it was. *)
Definition head (dir : gmap string (file T)) (rq : request) : head_response :=
  match rq_authnz rq with
  | Rejected => HeadResponse 401 None None true
  | Authorized user =>
    if negb (rq_pnum_valid rq) then HeadResponse 200 None None true
    else
      match rq_filename rq with
      | None => HeadResponse 200 None None true       (* 'No info to report' *)
      | Some filename =>
        match check_filename filename with
        | None => HeadResponse 403 None None true
        | Some secured_filename =>
          match dir !! secured_filename with
          | None => HeadResponse 404 None None true
          | Some f =>
            let '(ok, mime_type, size, msg) :=
              enforce_export_policy secured_filename f (rq_pnum rq) in
            if negb ok then HeadResponse 200 None None true
            else HeadResponse 200 size (Some "bytes") false
          end
        end
      end
  end.

(** [CONFIG['export_max_num_list']], and
    [str(datetime.datetime.fromtimestamp(mtime).isoformat())]. *)
Variable export_max_num_list : Z.
Variable isoformat : T → string.

(** One pass of the loop of [list_files] over the entry named [file]:
    what goes into the lists, and [self.message] afterwards. *)
Definition list_entry (pnum uri : string) (message : string) (file : string)
    (e : listed T) : file_info * string :=
  match e with
  | ListedDir mtime owner =>
    let message := msg_directory in
    (FileInfo file None (isoformat mtime) (uri +:+ "/" +:+ file) None (Some message) None owner,
     message)
  | ListedFile f owner =>
    let '(status, mime_type, size, msg) := enforce_export_policy file f pnum in
    let message := default message msg in
    let reason := if status then None else Some message in
    (FileInfo file size (isoformat (f_mtime f)) (uri +:+ "/" +:+ file) (Some status) reason
       mime_type owner,
     message)
  end.

Fixpoint list_entries (pnum uri : string) (message : string)
    (files : list (string * listed T)) : list file_info :=
  match files with
  | [] => []
  | (file, e) :: rest =>
    let '(info, message) := list_entry pnum uri message file e in
    info :: list_entries pnum uri message rest
  end.

(** [list_files(path, pnum)], [files] being [os.listdir(path)] with what
    [os.stat] says of each entry: the list written, or the status and
    message it raises with. *)
Definition list_files (files : list (string * listed T)) (pnum uri : string)
    (message : string) : Z * string + list file_info :=
  if Z.of_nat (length files) >? export_max_num_list then inl (400, msg_too_many)
  else inr (list_entries pnum uri message files).

End FileStreamerHandler.

End Download.

(** ** Files under the project directory *)

Module Fs.

(** The [chunk] query argument: ['end'], a decimal number, or anything
    else (on which [int(chunk_num)] raises). *)
Inductive chunk_arg := End | Num (n : Z) | Bad (s : string).

(** The paths the handlers build, kept apart by construction. [f] is the
    checked file name, [id] an upload id. String-level accidents (a file
    name that itself contains [".chunk"], [".part"] or the upload id) are
    outside this abstraction. *)
Inductive base :=
| Target (f : string)                  (* <project_dir>/<f> *)
| MergedFile (f id : string)           (* <project_dir>/<f>.<id> *)
| MergedLock (f id : string)           (* <project_dir>/<f>.<id>.lock *)
| UploadDir (id : string)              (* <project_dir>/<id> *)
| Chunk (id f : string) (n : Z)        (* <project_dir>/<id>/<f>.chunk.<n> *)
| EndPath (id f : string)              (* <project_dir>/<id>/<f>.chunk.end *)
| Relative (f : string) (c : chunk_arg). (* <f>.chunk.<c>, relative to the working directory *)

(** A path, or the same path with [.<uuid>.part] appended. *)
Inductive name := Whole (b : base) | Part (b : base) (uuid : string).

Inductive node := Regular (data : bytes) | Directory.

Global Instance chunk_arg_eq_dec : EqDecision chunk_arg.
Proof. solve_decision. Defined.
Global Instance base_eq_dec : EqDecision base.
Proof. solve_decision. Defined.
Global Instance name_eq_dec : EqDecision name.
Proof. solve_decision. Defined.
Global Instance byte_eq_dec : EqDecision byte.
Proof. intros x y. destruct (Byte.byte_eq_dec x y); [left|right]; done. Defined.
Global Instance node_eq_dec : EqDecision node.
Proof. solve_decision. Defined.

Definition chunk_arg_code (c : chunk_arg) : Z + string + unit :=
  match c with End => inr tt | Num n => inl (inl n) | Bad s => inl (inr s) end.
Definition chunk_arg_decode (x : Z + string + unit) : chunk_arg :=
  match x with inr _ => End | inl (inl n) => Num n | inl (inr s) => Bad s end.
Lemma chunk_arg_decode_code c : chunk_arg_decode (chunk_arg_code c) = c.
Proof. by destruct c. Qed.
Global Instance chunk_arg_countable : Countable chunk_arg :=
  inj_countable' chunk_arg_code chunk_arg_decode chunk_arg_decode_code.

Definition base_code (b : base)
    : string + string * string + string * string + string + string * string * Z
      + string * string + string * chunk_arg :=
  match b with
  | Target f => inl (inl (inl (inl (inl (inl f)))))
  | MergedFile f id => inl (inl (inl (inl (inl (inr (f, id))))))
  | MergedLock f id => inl (inl (inl (inl (inr (f, id)))))
  | UploadDir id => inl (inl (inl (inr id)))
  | Chunk id f n => inl (inl (inr (id, f, n)))
  | EndPath id f => inl (inr (id, f))
  | Relative f c => inr (f, c)
  end.
Definition base_decode
    (x : string + string * string + string * string + string + string * string * Z
         + string * string + string * chunk_arg) : base :=
  match x with
  | inl (inl (inl (inl (inl (inl f))))) => Target f
  | inl (inl (inl (inl (inl (inr (f, id)))))) => MergedFile f id
  | inl (inl (inl (inl (inr (f, id))))) => MergedLock f id
  | inl (inl (inl (inr id))) => UploadDir id
  | inl (inl (inr (id, f, n))) => Chunk id f n
  | inl (inr (id, f)) => EndPath id f
  | inr (f, c) => Relative f c
  end.
Lemma base_decode_code b : base_decode (base_code b) = b.
Proof. by destruct b. Qed.
Global Instance base_countable : Countable base :=
  inj_countable' base_code base_decode base_decode_code.

Definition name_code (p : name) : base + base * string :=
  match p with Whole b => inl b | Part b u => inr (b, u) end.
Definition name_decode (x : base + base * string) : name :=
  match x with inl b => Whole b | inr (b, u) => Part b u end.
Lemma name_decode_code p : name_decode (name_code p) = p.
Proof. by destruct p. Qed.
Global Instance name_countable : Countable name :=
  inj_countable' name_code name_decode name_decode_code.

(** [path + '.' + str(uuid4()) + '.part'], for a path that is not a
    partial file already. *)
Definition part_of (p : name) (uuid : string) : name :=
  match p with Whole b => Part b uuid | Part b _ => Part b uuid end.

(** The directory a path lives in, when that is an upload directory. *)
Definition parent (p : name) : option string :=
  match p with
  | Whole (Chunk id _ _) | Part (Chunk id _ _) _
  | Whole (EndPath id _) | Part (EndPath id _) _ => Some id
  | _ => None
  end.

(** Python exception classes that the handlers tell apart. *)
Inductive exn :=
| OSError | IOError | TypeError | ValueError | NameError | IndexError
| AttributeError | KeyError | AssertionError | MissingArgumentError
| Exception (msg : string).

Inductive outcome (A : Type) := Ret (a : A) | Raise (e : exn).
Arguments Ret {A} _.
Arguments Raise {A} _.

(** Faults of the environment: [copy_fault = Some j] makes
    [shutil.copyfileobj] raise after [j] bytes went through;
    [db_update_fails] makes the store refuse the chunk record;
    [write_fault = Some i] makes the [i]-th [target_file.write] raise. *)
Record faults := Faults {
  copy_fault : option nat;
  db_update_fails : bool;
  write_fault : option nat }.

Definition no_faults : faults := Faults None false None.

End Fs.

(** ** The resumable store *)

Module Store.

(** Modelled from the spec: the module [dbresumable] (the functions
    [resumable_db_*] imported by [api.py]) is not part of the sources at
    hand. The spec's ResumableStore keeps, per upload id, the owner, the
    group and one row [(chunk_num, chunk_size)] per received chunk, and
    offers insert, record_chunk, total_size, belongs_to, list_ids, group_of
    and delete. Rows are kept in insertion order. *)
Record upload := Upload {
  u_id : string;
  u_owner : string;
  u_group : string;
  u_chunks : list (Z * Z) }.

(** The store of a tenant directory: the uploads in the order they were
    inserted. *)
Definition store := list upload.

(** The record of upload [id], if there is one. *)
Definition find (s : store) (id : string) : option upload :=
  snd <$> list_find (λ u, u_id u = id) s.

(** Modelled from the spec: [insert(upload_id, user, group)] creates an
    empty record and reports success. *)
Definition resumable_db_insert_new_for_user (s : store) (id user group : string)
    : bool * store :=
  (true, s ++ [Upload id user group []]).

(** Modelled from the spec: [record_chunk(upload_id, chunk_num, chunk_size)]
    appends the chunk's row. *)
Definition resumable_db_update_with_chunk_info (s : store) (id : string)
    (chunk_num chunk_size : Z) : bool * store :=
  (true,
   (λ u, if bool_decide (u_id u = id)
         then Upload (u_id u) (u_owner u) (u_group u) (u_chunks u ++ [(chunk_num, chunk_size)])
         else u) <$> s).

(** Modelled from the spec: [total_size(upload_id)] is the sum of the
    recorded chunk sizes. *)
Definition resumable_db_get_total_size (s : store) (id : string) : Z :=
  match find s id with
  | Some u => foldr (λ row acc, row.2 + acc) 0 (u_chunks u)
  | None => 0
  end.

(** Modelled from the spec: [belongs_to(upload_id, user)]. *)
Definition resumable_db_upload_belongs_to_user (s : store) (id user : string) : bool :=
  match find s id with
  | Some u => bool_decide (u_owner u = user)
  | None => false
  end.

(** Modelled from the spec: [list_ids(user)], all upload ids owned by the
    user, in row order. *)
Definition resumable_db_get_all_resumable_ids_for_user (s : store) (user : string)
    : list string :=
  u_id <$> filter (λ u, u_owner u = user) s.

(** Modelled from the spec: [group_of(upload_id)]. *)
Definition resumable_db_get_group (s : store) (id : string) : option string :=
  u_group <$> find s id.

(** Modelled from the spec: [delete(upload_id, user)] removes the record
    after checking the owner. *)
Definition resumable_db_remove_completed_for_user (s : store) (id user : string)
    : bool * store :=
  (true, filter (λ u, ¬ (u_id u = id ∧ u_owner u = user)) s).

End Store.

(** ** The world the upload handlers run in *)

Module Sys.
Import Fs Store.

Inductive method := POST | PUT | PATCH | HEAD.

(** ['ab+'] (and ['ab']) and ['wb+']. *)
Inductive filemode := ab_plus | wb_plus.

(** JSON bodies written by the upload handlers. *)
Inductive json :=
| JMessage (m : string)                                  (* {'message': m} *)
| JChunk (filename : string) (id : option string) (max_chunk : option chunk_arg).
                                   (* {'filename': .., 'id': .., 'max_chunk': ..} *)

(** A Python file object: the path it was opened under, and [closed]. *)
Record open_file := OpenFile { of_name : name; of_closed : bool }.

(** The attributes of a [StreamHandler] instance, with the reply under
    construction ([_status_code], the write buffer, [_finished]). *)
Record handler := Handler {
  resumable_is_complete : bool;
  merged_file : option name;
  target_file : option open_file;
  path : option name;
  path_part : option name;
  chunk_order_correct : option bool;
  chunk_num : option chunk_arg;
  upload_id : option string;
  status_code : Z;
  written : list json;
  finished : bool }.

Definition fresh_handler : handler :=
  Handler true None None None None None None None 200 [] false.

Record world := World {
  fs : gmap name node;
  db : store;
  self : handler;
  env : faults;
  writes_done : nat }.

(** Computations over the world that return or raise. Effects made before
    a [raise] stay, as in Python. *)
Definition M (A : Type) : Type := world → outcome A * world.

Definition ret {A} (a : A) : M A := λ w, (Ret a, w).
Definition raise {A} (e : exn) : M A := λ w, (Raise e, w).
Definition bind {A B} (m : M A) (k : A → M B) : M B :=
  λ w, match m w with
       | (Ret a, w') => k a w'
       | (Raise e, w') => (Raise e, w')
       end.
(** [try: m except <any> as e: h e]; the handler decides what it lets
    through. *)
Definition try_except {A} (m : M A) (h : exn → M A) : M A :=
  λ w, match m w with
       | (Ret a, w') => (Ret a, w')
       | (Raise e, w') => h e w'
       end.
(** [try: m finally: f]. *)
Definition try_finally {A} (m : M A) (f : M unit) : M A :=
  λ w, match m w with
       | (r, w') =>
         match f w' with
         | (Ret _, w'') => (r, w'')
         | (Raise e, w'') => (Raise e, w'')
         end
       end.
(** Runs [m] and hands its outcome over as a value. *)
Definition attempt {A} (m : M A) : M (outcome A) :=
  λ w, match m w with (r, w') => (Ret r, w') end.

Declare Scope py_scope.
Delimit Scope py_scope with py.
Notation "'let*' x := m 'in' k" := (bind m (λ x, k))
  (at level 10, x name, m at level 100, k at level 200) : py_scope.
Notation "m >> k" := (bind m (λ _, k))
  (at level 80, right associativity) : py_scope.
Local Open Scope py_scope.

Definition get_fs : M (gmap name node) := λ w, (Ret (fs w), w).
Definition put_fs (m : gmap name node) : M unit :=
  λ w, (Ret tt, World m (db w) (self w) (env w) (writes_done w)).
Definition get_db : M store := λ w, (Ret (db w), w).
Definition put_db (s : store) : M unit :=
  λ w, (Ret tt, World (fs w) s (self w) (env w) (writes_done w)).
Definition get_self : M handler := λ w, (Ret (self w), w).
Definition put_self (h : handler) : M unit :=
  λ w, (Ret tt, World (fs w) (db w) h (env w) (writes_done w)).
Definition get_env : M faults := λ w, (Ret (env w), w).
Definition count_write : M nat :=
  λ w, (Ret (writes_done w), World (fs w) (db w) (self w) (env w) (S (writes_done w))).

(** A name that must not be [None] where a string is expected. *)
Definition the {A} (o : option A) (e : exn) : M A :=
  match o with Some a => ret a | None => raise e end.

Definition assert (b : bool) : M unit :=
  if b then ret tt else raise AssertionError.

(** *** Attribute assignments *)

Definition set_resumable_is_complete (b : bool) : M unit :=
  let* h := get_self in
  put_self (Handler b (merged_file h) (target_file h) (path h) (path_part h)
              (chunk_order_correct h) (chunk_num h) (upload_id h)
              (status_code h) (written h) (finished h)).
Definition set_merged_file (v : option name) : M unit :=
  let* h := get_self in
  put_self (Handler (resumable_is_complete h) v (target_file h) (path h) (path_part h)
              (chunk_order_correct h) (chunk_num h) (upload_id h)
              (status_code h) (written h) (finished h)).
Definition set_target_file (v : option open_file) : M unit :=
  let* h := get_self in
  put_self (Handler (resumable_is_complete h) (merged_file h) v (path h) (path_part h)
              (chunk_order_correct h) (chunk_num h) (upload_id h)
              (status_code h) (written h) (finished h)).
Definition set_paths (p pp : option name) : M unit :=
  let* h := get_self in
  put_self (Handler (resumable_is_complete h) (merged_file h) (target_file h) p pp
              (chunk_order_correct h) (chunk_num h) (upload_id h)
              (status_code h) (written h) (finished h)).
Definition set_chunk_order_correct (v : option bool) : M unit :=
  let* h := get_self in
  put_self (Handler (resumable_is_complete h) (merged_file h) (target_file h) (path h)
              (path_part h) v (chunk_num h) (upload_id h)
              (status_code h) (written h) (finished h)).
Definition set_chunk (c : chunk_arg) (id : string) : M unit :=
  let* h := get_self in
  put_self (Handler (resumable_is_complete h) (merged_file h) (target_file h) (path h)
              (path_part h) (chunk_order_correct h) (Some c) (Some id)
              (status_code h) (written h) (finished h)).
Definition set_status (s : Z) : M unit :=
  let* h := get_self in
  put_self (Handler (resumable_is_complete h) (merged_file h) (target_file h) (path h)
              (path_part h) (chunk_order_correct h) (chunk_num h) (upload_id h)
              s (written h) (finished h)).
(** [self.write(chunk)]. *)
Definition write (j : json) : M unit :=
  let* h := get_self in
  put_self (Handler (resumable_is_complete h) (merged_file h) (target_file h) (path h)
              (path_part h) (chunk_order_correct h) (chunk_num h) (upload_id h)
              (status_code h) (written h ++ [j]) (finished h)).
(** [self.finish(chunk)]. *)
Definition finish (j : json) : M unit :=
  let* h := get_self in
  put_self (Handler (resumable_is_complete h) (merged_file h) (target_file h) (path h)
              (path_part h) (chunk_order_correct h) (chunk_num h) (upload_id h)
              (status_code h) (written h ++ [j]) true).
(** [self.target_file.close()]; [AttributeError] when there is no file
    object. *)
Definition close_target_file : M unit :=
  let* h := get_self in
  match target_file h with
  | None => raise AttributeError
  | Some f => set_target_file (Some (OpenFile (of_name f) true))
  end.

(** *** File system calls *)

(** A path inside an upload directory needs that directory. *)
Definition parent_ok (m : gmap name node) (p : name) : bool :=
  match parent p with
  | Some id => bool_decide (m !! Whole (UploadDir id) = Some Directory)
  | None => true
  end.

Definition lexists (p : name) : M bool :=
  let* m := get_fs in ret (bool_decide (is_Some (m !! p))).

Definition isdir (p : name) : M bool :=
  let* m := get_fs in ret (bool_decide (m !! p = Some Directory)).

(** [os.rename(src, dst)]: replaces a regular file at [dst]. *)
Definition os_rename (src dst : name) : M unit :=
  let* m := get_fs in
  match m !! src with
  | None => raise OSError
  | Some n =>
    if negb (parent_ok m dst) then raise OSError
    else match m !! dst, n with
         | Some Directory, Regular _ | Some (Regular _), Directory => raise OSError
         | _, _ => put_fs (<[dst := n]> (delete src m))
         end
  end.

(** [os.remove(p)] and [os.unlink(p)]. *)
Definition os_remove (p : name) : M unit :=
  let* m := get_fs in
  match m !! p with
  | Some (Regular _) => put_fs (delete p m)
  | _ => raise OSError
  end.

(** [os.link(src, dst)]. The link is a sentinel only: nothing reads it,
    so it keeps the contents [src] had when it was made. *)
Definition os_link (src dst : name) : M unit :=
  let* m := get_fs in
  match m !! src, m !! dst with
  | Some (Regular d), None => put_fs (<[dst := Regular d]> m)
  | _, _ => raise OSError
  end.

(** [os.makedirs(project_dir + '/' + id)]. *)
Definition os_makedirs (id : string) : M unit :=
  let* m := get_fs in
  match m !! Whole (UploadDir id) with
  | None => put_fs (<[Whole (UploadDir id) := Directory]> m)
  | Some _ => raise OSError
  end.

Definition inside (dir : name) (p : name) : bool :=
  match dir with
  | Whole (UploadDir id) => bool_decide (parent p = Some id)
  | _ => false
  end.

(** [shutil.rmtree(p)]: the directory and what it holds. *)
Definition shutil_rmtree (p : name) : M unit :=
  let* m := get_fs in
  match m !! p with
  | Some Directory => put_fs (filter (λ kv, inside p kv.1 = false) (delete p m))
  | _ => raise OSError
  end.

(** [os.stat(p).st_size]. *)
Definition stat_size (p : name) : M Z :=
  let* m := get_fs in
  match m !! p with
  | Some (Regular d) => ret (Z.of_nat (length d))
  | Some Directory => ret 4096
  | None => raise OSError
  end.

(** [open(p, mode)] for writing: ['ab+'] keeps what is there, ['wb+']
    truncates; both create a missing file. *)
Definition open_write (p : name) (mode : filemode) : M unit :=
  let* m := get_fs in
  if negb (parent_ok m p) then raise IOError
  else match mode, m !! p with
       | _, Some Directory => raise IOError
       | ab_plus, Some (Regular _) => ret tt
       | ab_plus, None | wb_plus, _ => put_fs (<[p := Regular []]> m)
       end.

(** [open(p, 'rb').read()]. *)
Definition read_all (p : name) : M bytes :=
  let* m := get_fs in
  match m !! p with
  | Some (Regular d) => ret d
  | _ => raise IOError
  end.

(** Writing through a file object opened for append, or opened with
    ['wb+'] and only ever written sequentially: the data goes to the end. *)
Definition append (p : name) (data : bytes) : M unit :=
  let* m := get_fs in
  match m !! p with
  | Some (Regular d) => put_fs (<[p := Regular (d ++ data)]> m)
  | _ => raise IOError
  end.

(** [f.truncate(size)]: cuts, or pads with zero bytes. *)
Definition truncate (p : name) (size : Z) : M unit :=
  let* m := get_fs in
  if size <? 0 then raise IOError
  else match m !! p with
       | Some (Regular d) =>
         let n := Z.to_nat size in
         put_fs (<[p := Regular (take n d ++ replicate (n - length d) x00)]> m)
       | _ => raise IOError
       end.

(** [shutil.copyfileobj(fin, fout)] from file [src] to the end of [dst]. *)
Definition copyfileobj (src dst : name) : M unit :=
  let* data := read_all src in
  let* e := get_env in
  match copy_fault e with
  | Some j => append dst (take j data) >> raise IOError
  | None => append dst data
  end.

(** An entry of an upload directory as the handlers read it: the file
    name, the chunk suffix, and whether ['.part'] occurs in it. *)
Record dirent := Dirent { de_file : string; de_chunk : chunk_arg; de_part : bool }.

Definition dirent_of (id : string) (p : name) : option dirent :=
  match p with
  | Whole (Chunk id' f n) => if bool_decide (id' = id) then Some (Dirent f (Num n) false) else None
  | Part (Chunk id' f n) _ => if bool_decide (id' = id) then Some (Dirent f (Num n) true) else None
  | Whole (EndPath id' f) => if bool_decide (id' = id) then Some (Dirent f End false) else None
  | Part (EndPath id' f) _ => if bool_decide (id' = id) then Some (Dirent f End true) else None
  | _ => None
  end.

(** [os.listdir(project_dir + '/' + id)], in no particular order. *)
Definition os_listdir (id : string) : M (list dirent) :=
  let* m := get_fs in
  match m !! Whole (UploadDir id) with
  | Some Directory => ret (omap (dirent_of id) (map_to_list m).*1)
  | _ => raise OSError
  end.

(** Modelled from the spec: [utils.natural_keys] is not part of the
    sources at hand. The spec (4.4) reads the last complete chunk of the
    sorted listing as the largest [n] on disk, so the natural order puts
    chunk files in the order of their chunk numbers; a non-numeric suffix
    sorts after every number. *)
Definition chunk_leb (a b : chunk_arg) : bool :=
  match a, b with
  | Num x, Num y => x <=? y
  | Num _, _ => true
  | _, Num _ => false
  | _, _ => true
  end.
Definition natural_le (a b : dirent) : Prop := chunk_leb (de_chunk a) (de_chunk b).
Global Instance natural_le_dec a b : Decision (natural_le a b).
Proof. unfold natural_le. apply _. Defined.

(** [l.sort(key=natural_keys)]. *)
Definition natural_sort (l : list dirent) : list dirent := merge_sort natural_le l.

End Sys.

(** ** [StreamHandler]: the loopback handler that writes to disk *)

Module StreamHandler.
Import Fs Store Sys.
Local Open Scope py_scope.

(** What a request to [upload_stream] carries, with the two random draws
    ([uuid4()]) its handling makes. Only the plain ([else]) branch of the
    content-type dispatch is modelled; the other branches hand the data to
    external processes. *)
Record request := Request {
  rq_method : method;
  rq_token_valid : bool;               (* validate_token returns *)
  rq_user : string;
  rq_pnum_valid : bool;                (* _VALID_PNUM.match(pnum) *)
  rq_content_type : bool;              (* a Content-Type header is there *)
  rq_filename : option string;         (* check_filename(...); None when it raises *)
  rq_chunk : option chunk_arg;         (* query argument 'chunk' *)
  rq_id : option string;               (* query argument 'id' *)
  rq_group : option string;            (* query argument 'group' *)
  rq_new_upload_id : string;           (* str(uuid4()) for a first chunk *)
  rq_part_uuid : string;               (* str(uuid4()) for the .part name *)
  rq_body : list bytes }.              (* the body, as data_received sees it *)

Definition msg_failed : string := "stream processing failed".
Definition msg_chunk_order : string := "chunk_order_incorrect".
Definition msg_streamed : string := "data streamed".

(** [validate_token]: none of its [set_status] calls updates
    [self.status], so the last handler always ends on [set_status(401)]. *)
Definition validate_token (rq : request) : M unit :=
  if rq_token_valid rq then ret tt
  else set_status 401 >> raise (Exception "").

Definition refuse_upload_if_not_in_sequential_order (upload_id : string) (chunk_num : Z)
    : M unit :=
  let* chunks_on_disk := os_listdir upload_id in
  let chunks_on_disk := natural_sort chunks_on_disk in
  let full_chunks_on_disk := filter (λ c, de_part c = false) chunks_on_disk in
  let* last_chunk := the (last full_chunks_on_disk) IndexError in
  match de_chunk last_chunk with
  | Num previous_chunk_num =>
    if (chunk_num <=? previous_chunk_num) || (chunk_num - previous_chunk_num >=? 2)
    then set_chunk_order_correct (Some false)
         >> raise (Exception "chunks must be uploaded in sequential order")
    else ret tt
  | _ => raise ValueError
  end.

(** The [except] clause of [merge_resumables]: [size_before_merge] is
    [None] when the failure came before its assignment. *)
Definition undo_merge (chunk out : name) (size_before_merge : option Z) : M unit :=
  try_except
    (os_remove chunk >>
     open_write out ab_plus >>
     let* size := the size_before_merge NameError in
     truncate out size)
    (λ _, raise (Exception "could not merge")).

(** [merge_resumables(project_dir, last_chunk_filename, upload_id)]; the
    second argument is given by the path it names. Returns [final]. *)
Definition merge_resumables (last_chunk_filename : base) (upload_id : string) : M name :=
  match last_chunk_filename with
  | EndPath _ filename =>
    let out := Whole (MergedFile filename upload_id) in
    let final := Whole (Target filename) in
    os_rename out final >>
    try_except (shutil_rmtree (Whole (UploadDir upload_id)))
      (λ e, match e with OSError => ret tt | _ => raise e end) >>
    ret final
  | Chunk _ filename chunk_num =>
    let out := Whole (MergedFile filename upload_id) in
    let out_lock := Whole (MergedLock filename upload_id) in
    let final := Whole (Target filename) in
    let chunk := Whole (Chunk upload_id filename chunk_num) in
    try_finally
      (let* opened :=
         attempt ((if chunk_num >? 1 then os_link out out_lock else ret tt) >>
                  open_write out ab_plus >>
                  read_all chunk >>
                  stat_size out) in
       match opened with
       | Raise _ => undo_merge chunk out None
       | Ret size_before_merge =>
         let* merged :=
           attempt (copyfileobj chunk out >>
                    let* chunk_size := stat_size chunk in
                    let* e := get_env in
                    let* s := get_db in
                    let '(ok, s') :=
                      resumable_db_update_with_chunk_info s upload_id chunk_num chunk_size in
                    if db_update_fails e then assert false
                    else put_db s' >> assert ok) in
         match merged with
         | Raise _ => undo_merge chunk out (Some size_before_merge)
         | Ret _ => ret tt
         end
       end)
      (try_except (os_remove out_lock)
         (λ e, match e with OSError => ret tt | _ => raise e end)) >>
    (if chunk_num >=? 5
     then os_remove (Whole (Chunk upload_id filename (chunk_num - 4)))
     else ret tt) >>
    ret final
  | _ => raise (Exception "not a chunk file name")
  end.

(** [handle_resumable_request(project_dir, filename)]: the path of the
    chunk file, [None] when no branch returns. *)
Definition handle_resumable_request (rq : request) (filename : string) : M (option base) :=
  set_chunk_order_correct (Some true) >>
  let* chunk_num := the (rq_chunk rq) MissingArgumentError in
  let* upload_id := the (rq_id rq) MissingArgumentError in
  let* group := the (rq_group rq) MissingArgumentError in
  let chunk_filename := Whole (Relative filename chunk_num) in
  let* dup := lexists chunk_filename in
  if dup then raise (Exception "Trying to upload a chunk which has already been uploaded")
  else
    match chunk_num with
    | Bad _ => raise ValueError
    | End =>
      set_chunk End upload_id >>
      set_resumable_is_complete true >>
      let filename := EndPath upload_id filename in
      let* final := merge_resumables filename upload_id in
      set_merged_file (Some final) >>
      set_target_file None >>
      ret (Some filename)
    | Num n =>
      if n =? 1 then
        set_chunk (Num 1) (rq_new_upload_id rq) >>
        set_resumable_is_complete false >>
        let filename := Chunk (rq_new_upload_id rq) filename 1 in
        os_makedirs (rq_new_upload_id rq) >>
        let* s := get_db in
        let '(ok, s') :=
          resumable_db_insert_new_for_user s (rq_new_upload_id rq) (rq_user rq) group in
        put_db s' >> assert ok >>
        ret (Some filename)
      else if n >? 1 then
        set_chunk (Num n) upload_id >>
        set_resumable_is_complete false >>
        let filename := Chunk upload_id filename n in
        refuse_upload_if_not_in_sequential_order upload_id n >>
        ret (Some filename)
      else ret None
    end.

Definition filemode_of (m : method) : option filemode :=
  match m with
  | POST => Some ab_plus
  | PUT | PATCH => Some wb_plus        (* "even for PATCH, files writes are idempotent" *)
  | HEAD => None                       (* filemode stays unbound *)
  end.

(** [prepare]. *)
Definition prepare (rq : request) : M unit :=
  try_except
    (put_self fresh_handler >>
     try_except (validate_token rq) (λ _, raise (Exception "")) >>
     try_except
       (assert (rq_pnum_valid rq) >>
        let filemode := filemode_of (rq_method rq) in
        try_except
          (the (if rq_content_type rq then Some tt else None) KeyError >>
           let* filename := the (rq_filename rq) (Exception "") in
           let* target :=
             match rq_method rq with
             | PATCH => handle_resumable_request rq filename
             | _ => ret (Some (Target filename))
             end in
           (* prepare the partial file name for incoming data *)
           let* target := the target TypeError in
           let p := Whole target in
           let pp := part_of p (rq_part_uuid rq) in
           set_paths (Some p) (Some pp) >>
           let* part_there := lexists pp in
           (if part_there then raise (Exception "")
            else
              let* there := lexists p in
              if there then
                let* dir := isdir p in
                if dir then shutil_rmtree p
                else os_rename p pp >>
                     let* a := lexists pp in assert a >>
                     let* b := lexists p in assert (negb b)
              else ret tt) >>
           set_paths (Some pp) (Some p) >>
           let* h := get_self in
           match merged_file h with
           | None =>
             let* mode := the filemode NameError in
             open_write pp mode >>
             set_target_file (Some (OpenFile pp false))
           | Some _ => ret tt
           end)
          (λ e, match e with
                | KeyError => raise (Exception "No content-type - do not know what to do with data")
                | _ => raise e
                end))
       (λ _,
          try_except
            (let* h := get_self in
             (match target_file h with Some _ => close_target_file | None => ret tt end) >>
             let* src := the (path h) TypeError in
             let* dst := the (path_part h) TypeError in
             os_rename src dst)
            (λ e, match e with AttributeError => ret tt | _ => raise e end)))
    (λ _,
       let* h := get_self in
       match chunk_order_correct h with
       | Some false => set_status 200 >> finish (JMessage msg_chunk_order)
       | _ => finish (JMessage msg_failed)
       end).

(** [self.target_file.write(chunk)]. *)
Definition target_file_write (chunk : bytes) : M unit :=
  let* h := get_self in
  match target_file h with
  | None => raise AttributeError
  | Some f =>
    if of_closed f then raise ValueError
    else
      let* i := count_write in
      let* e := get_env in
      if bool_decide (write_fault e = Some i) then raise IOError
      else append (of_name f) chunk
  end.

(** [data_received(chunk)], plain content type. [send_error] is called
    with a string where a status code is expected, so it raises in turn:
    the exception leaves [data_received] and no reply is written. *)
Definition data_received (chunk : bytes) : M unit :=
  try_except (target_file_write chunk)
    (λ _,
       let* h := get_self in
       (match target_file h with Some _ => close_target_file | None => ret tt end) >>
       let* src := the (path h) TypeError in
       let* dst := the (path_part h) TypeError in
       os_rename src dst >>
       raise TypeError).

(** [post] and [put], plain content type. *)
Definition post : M unit :=
  close_target_file >>
  let* h := get_self in
  let* src := the (path h) TypeError in
  let* dst := the (path_part h) TypeError in
  os_rename src dst >>
  set_status 201 >>
  write (JMessage msg_streamed).

Definition put : M unit :=
  close_target_file >>
  let* h := get_self in
  let* src := the (path h) TypeError in
  let* dst := the (path_part h) TypeError in
  os_rename src dst >>
  set_status 201 >>
  write (JMessage msg_streamed).

(** [os.path.basename(p).split('.chunk')[0]] and [os.path.basename(p)]. *)
Definition file_of (p : name) : string :=
  match p with
  | Whole b | Part b _ =>
    match b with
    | Target f | MergedFile f _ | MergedLock f _ | Chunk _ f _ | EndPath _ f
    | Relative f _ => f
    | UploadDir id => id
    end
  end.
Definition base_of (p : name) : base :=
  match p with Whole b | Part b _ => b end.

(** [patch]. In the [else] branch of the inner test [filename] is never
    bound, so the last [write] raises. *)
Definition patch : M unit :=
  let* h := get_self in
  let* filename :=
    match merged_file h with
    | None =>
      close_target_file >>
      let* src := the (path h) TypeError in
      let* dst := the (path_part h) TypeError in
      let* there := lexists dst in
      if negb there then
        os_rename src dst >>
        let filename := file_of dst in
        let* id := the (upload_id h) AttributeError in
        merge_resumables (base_of dst) id >>
        ret (Some filename)
      else write (JMessage msg_chunk_order) >> ret None
    | Some merged => ret (Some (file_of merged))
    end in
  set_status 201 >>
  let* filename := the filename NameError in
  write (JChunk filename (upload_id h) (chunk_num h)).

Definition head : M unit := set_status 201.

(** [on_finish]; the request hook is fired and forgotten, it is not part
    of the model. *)
Definition on_finish (rq : request) : M unit :=
  try_except
    (let* h := get_self in
     match target_file h with
     | None => raise AttributeError
     | Some f =>
       if negb (of_closed f) then
         close_target_file >>
         let* src := the (path h) TypeError in
         let* dst := the (path_part h) TypeError in
         os_rename src dst
       else ret tt
     end)
    (λ e, match e with AttributeError => ret tt | _ => raise e end) >>
  let* h := get_self in
  if resumable_is_complete h then
    try_except
      (match merged_file h with
       | None => ret tt
       | Some _ =>
         let* id := the (upload_id h) AttributeError in
         let* s := get_db in
         let '(ok, s') := resumable_db_remove_completed_for_user s id (rq_user rq) in
         put_db s' >> assert ok
       end)
      (λ _, ret tt)
  else ret tt.


(** *** One request, start to end *)

(** What the peer sees: a status with the JSON written, or a connection
    that went away without a reply. *)
Inductive reply := Reply (status : Z) (body : list json) | Dropped.

Fixpoint receive (chunks : list bytes) : M unit :=
  match chunks with
  | [] => ret tt
  | chunk :: rest => data_received chunk >> receive rest
  end.

Definition method_handler (m : method) : M unit :=
  match m with POST => post | PUT => put | PATCH => patch | HEAD => head end.

Definition reply_of (w : world) : reply :=
  Reply (status_code (self w)) (written (self w)).

(** The order in which the framework drives the handler: [prepare]; unless
    that finished the request, [data_received] per body chunk, the method,
    [finish] and [on_finish]. An exception leaving the method makes the
    framework answer 500 with an empty buffer. *)
Definition serve (rq : request) (w : world) : reply * world :=
  let w1 := (prepare rq w).2 in
  if finished (self w1) then (reply_of w1, w1)
  else
    match receive (rq_body rq) w1 with
    | (Raise _, w2) => (Dropped, w2)
    | (Ret _, w2) =>
      match method_handler (rq_method rq) w2 with
      | (Ret _, w3) => (reply_of w3, (on_finish rq w3).2)
      | (Raise _, w3) => (Reply 500 [], (on_finish rq w3).2)
      end
    end.


End StreamHandler.

(** ** [ProxyHandler]: the public handler in front of [StreamHandler] *)

Module ProxyHandler.
Import Fs Store Sys.

(** [yield self.fetch_future]: the HTTP client hands back a response with
    a 2xx status and raises [HTTPError] on any other outcome. *)
Definition fetch_future (inner : StreamHandler.reply) : option (Z * list json) :=
  match inner with
  | StreamHandler.Reply code body =>
    if (200 <=? code) && (code <? 300) then Some (code, body) else None
  | StreamHandler.Dropped => None
  end.

(** [post] and [put] copy the inner status and body; an exception leaving
    the method is answered by the framework with 500. *)
Definition post (inner : StreamHandler.reply) : StreamHandler.reply :=
  match fetch_future inner with
  | Some (code, body) => StreamHandler.Reply code body
  | None => StreamHandler.Reply 500 []
  end.

Definition put (inner : StreamHandler.reply) : StreamHandler.reply :=
  match fetch_future inner with
  | Some (code, body) => StreamHandler.Reply code body
  | None => StreamHandler.Reply 500 []
  end.

(** [patch]: [json.loads(response.body)['message'] == 'chunk_order_incorrect']
    turns the status into 400; anything else is copied. *)
Definition patch (inner : StreamHandler.reply) : StreamHandler.reply :=
  match fetch_future inner with
  | Some (code, body) =>
    match body with
    | [JMessage m] =>
      if bool_decide (m = StreamHandler.msg_chunk_order)
      then StreamHandler.Reply 400 [JMessage m]
      else StreamHandler.Reply code body
    | _ => StreamHandler.Reply code body
    end
  | None => StreamHandler.Reply 500 []
  end.

(** A request that passed the proxy's own checks, as it goes to the inner
    handler and back. *)
Definition relay (rq : StreamHandler.request) (w : world) : StreamHandler.reply * world :=
  let '(r, w') := StreamHandler.serve rq w in
  (match StreamHandler.rq_method rq with
   | PATCH => patch r
   | POST => post r
   | PUT => put r
   | HEAD => StreamHandler.Reply 201 []
   end, w').

(** What [prepare] reads of a request to the public handler. The inner
    handler validates the forwarded token on its own and draws its own
    random names; what it makes of them is part of the request here. *)
Record request := Request {
  rq_method : method;
  rq_authnz : option AuthRequestHandler.authnz;  (* validate_token; None when it raises *)
  rq_pnum : string;                    (* pnum_from_url(uri) *)
  rq_pnum_valid : bool;                (* _VALID_PNUM.match(pnum) *)
  rq_uri_filename : option string;     (* the last of six or more URI parts, unescaped *)
  rq_filename_header : option string;  (* the 'Filename' header *)
  rq_now : string;                     (* datetime.datetime.now().isoformat() *)
  rq_group : option string;            (* query argument 'group' *)
  rq_chunk : option chunk_arg;         (* query argument 'chunk' *)
  rq_id : option string;               (* query argument 'id' *)
  rq_inner_token_valid : bool;         (* the inner validate_token returns *)
  rq_inner_user : string;
  rq_new_upload_id : string;
  rq_part_uuid : string;
  rq_body : list bytes }.

Section Prepare.

(** [utils.check_filename] ([None] when it raises) and
    [utils.IS_VALID_GROUPNAME.match]. *)
Variable check_filename : string → option string.
Variable is_valid_groupname : string → bool.

(** Step 4 of [prepare]: [self.filename]. *)
Definition filename_of (rq : request) : option string :=
  match rq_uri_filename rq with
  | Some filename => check_filename filename
  | None =>
    match rq_filename_header rq with
    | Some filename => check_filename filename
    | None => Some (rq_now rq +:+ ".txt")       (* KeyError *)
    end
  end.

(** Step 5 of [prepare]: the group name and the groups it is looked up in. *)
Definition group_of (rq : request) (authnz_status : AuthRequestHandler.authnz)
    : string * list string :=
  match AuthRequestHandler.a_claims authnz_status ≫= AuthRequestHandler.c_groups with
  | Some group_memberships =>
    (default (rq_pnum rq +:+ "-member-group") (rq_group rq), group_memberships)
  | None => (rq_pnum rq +:+ "-member-group", [rq_pnum rq +:+ "-member-group"])
  end.

(** [prepare]: the request sent to the inner handler, or [None] when an
    exception reaches the last [except] clause (401, 'Request failed').
    Query arguments that are not given go out as the string ['None']. *)
Definition prepare (rq : request) : option StreamHandler.request :=
  match rq_authnz rq with
  | None => None
  | Some authnz_status =>
    if negb (rq_pnum_valid rq) then None
    else
      match filename_of rq with
      | None => None
      | Some filename =>
        let '(group_name, group_memberships) := group_of rq authnz_status in
        if negb (is_valid_groupname group_name) then None
        else if negb (bool_decide (head (split_on "-"%char group_name) = Some (rq_pnum rq))) then None
        else if negb (bool_decide (group_name ∈ group_memberships)) then None
        else
          let '(chunk_num, upload_id) :=
            match rq_chunk rq with
            | None => (Bad "None", "None")
            | Some chunk_num => (chunk_num, default "None" (rq_id rq))
            end in
          Some (StreamHandler.Request (rq_method rq) (rq_inner_token_valid rq)
                  (rq_inner_user rq) (rq_pnum_valid rq) true (check_filename filename)
                  (Some chunk_num) (Some upload_id) (Some group_name)
                  (rq_new_upload_id rq) (rq_part_uuid rq) (rq_body rq))
      end
  end.

(** A request to the public handler, start to end. *)
Definition handle (rq : request) (w : world) : StreamHandler.reply * world :=
  match prepare rq with
  | None => (StreamHandler.Reply 401 [JMessage "Request failed"], w)
  | Some inner => relay inner w
  end.

End Prepare.

End ProxyHandler.

(** ** [FormDataHandler]: multipart form uploads *)

Module FormDataHandler.
Import Fs Store Sys.
Local Open Scope py_scope.

(** One element of [self.request.files['file']], with the [uuid4()] drawn
    for its partial name. [ff_filename] is [None] when [check_filename]
    raises. *)
Record form_file := FormFile {
  ff_filename : option string;
  ff_body : bytes;
  ff_uuid : string }.

(** [GenericFormDataHandler.write_file], for a backend other than ['sns']. *)
Definition write_file (filemode : filemode) (filename : string) (filebody : bytes)
    (uuid : string) : M bool :=
  try_except
    (let p := Whole (Target filename) in
     let pp := part_of p uuid in
     set_paths (Some p) (Some pp) >>
     let* part_there := lexists pp in
     (if part_there then raise (Exception "")
      else
        let* there := lexists p in
        if there then
          os_rename p pp >>
          let* a := lexists pp in assert a >>
          let* b := lexists p in assert (negb b)
        else ret tt) >>
     set_paths (Some pp) (Some p) >>
     open_write pp filemode >>
     append pp filebody >>
     os_rename pp p >>
     ret true)
    (λ _, ret false).

(** [GenericFormDataHandler.write_files]. *)
Fixpoint write_each (filemode : filemode) (files : list form_file) : M unit :=
  match files with
  | [] => ret tt
  | file :: rest =>
    let* filename := the (ff_filename file) (Exception "") in
    (if bool_decide (ff_body file = []) then raise (Exception "EmptyFileBodyError")
     else ret tt) >>
    let* written := write_file filemode filename (ff_body file) (ff_uuid file) in
    assert written >>
    write_each filemode rest
  end.

Definition write_files (filemode : filemode) (files : list form_file) : M bool :=
  try_except (write_each filemode files >> ret true) (λ _, ret false).

(** [FormDataHandler.handle_data]. *)
Definition handle_data (filemode : filemode) (files : list form_file) : M unit :=
  try_except
    (let* ok := write_files filemode files in
     assert ok >>
     set_status 201 >>
     write (JMessage "data uploaded"))
    (λ _, set_status 400 >> write (JMessage "could not upload data")).

(** The three methods differ in the open mode they pass on. *)
Definition post (files : list form_file) : M unit := handle_data ab_plus files.
Definition patch (files : list form_file) : M unit := handle_data ab_plus files.
Definition put (files : list form_file) : M unit := handle_data wb_plus files.

(** [GenericFormDataHandler.prepare]. [files] is
    [self.request.files['file']], [None] when the form has no such field. *)
Definition prepare (token_valid : bool) (files : option (list form_file)) : M unit :=
  try_except
    ((if token_valid then ret tt else set_status 401 >> raise (Exception "")) >>
     let* files := the files KeyError in
     match files with
     | [] => set_status 400 >> raise (Exception "")
     | _ => ret tt
     end)
    (λ _,
       let* h := get_self in
       (if status_code h =? 401 then ret tt else set_status 400) >>
       finish (JMessage "request failed")).

(** A form upload, start to end: [prepare], and the method unless
    [prepare] finished the request. *)
Definition serve (m : method) (token_valid : bool) (files : option (list form_file))
    (w : world) : StreamHandler.reply * world :=
  let w1 := (prepare token_valid files w).2 in
  if finished (self w1) then (StreamHandler.reply_of w1, w1)
  else
    let handle :=
      match m with
      | POST => post (default [] files)
      | PATCH => patch (default [] files)
      | PUT => put (default [] files)
      | HEAD => set_status 201
      end in
    let w2 := (handle w1).2 in
    (StreamHandler.reply_of w2, w2).

End FormDataHandler.

(** ** [ResumablesHandler]: what the server holds of an upload *)

Module ResumablesHandler.
Import Fs Store Sys.
Local Open Scope py_scope.

(** The name of an upload directory entry, as [os.listdir] spells it. *)
Definition entry_name (d : dirent) : string :=
  de_file d +:+ ".chunk." +:+
  match de_chunk d with Num n => pretty n | End => "end" | Bad s => s end.

(** The path of an entry of upload directory [id]. *)
Definition entry_path (id : string) (d : dirent) : name :=
  match de_chunk d with
  | Num n => Whole (Chunk id (de_file d) n)
  | _ => Whole (EndPath id (de_file d))
  end.

(** [a in b] on strings. *)
Definition contains (a b : string) : bool :=
  match String.index 0 a b with Some _ => true | None => false end.

(** [resumables_cmp(a, b)], on the pairs that
    [find_relevant_resumable_dir] collects. *)
Definition resumables_cmp (a b : Z * string) : Z :=
  let a_time := a.1 in
  let b_time := b.1 in
  if a_time >? b_time then -1
  else if a_time <? b_time then 1
  else 1.

(** [l.sort(cmp)]: the sort only asks whether [cmp x y < 0] and is stable,
    so an element is put before the first one it is smaller than, after
    everything put before it that it is not smaller than. *)
Fixpoint insert_cmp {A} (cmp : A → A → Z) (x : A) (l : list A) : list A :=
  match l with
  | [] => [x]
  | y :: l' => if cmp x y <? 0 then x :: y :: l' else y :: insert_cmp cmp x l'
  end.
Definition sort_cmp {A} (cmp : A → A → Z) (l : list A) : list A :=
  foldl (λ acc x, insert_cmp cmp x acc) [] l.

(** The tuple [get_resumable_chunk_info] returns, in its order:
    (size, chunknum, md5sum, previous_offset, next_offset, recommendation,
    warning, filename). *)
Record chunk_info := ChunkInfo {
  ci_latest_size : option Z;
  ci_num : option Z;
  ci_md5sum : option string;
  ci_previous_offset : option Z;
  ci_next_offset : option Z;
  ci_recommendation : option string;
  ci_warning : option string;
  ci_filename : option string }.

Definition no_info : chunk_info := ChunkInfo None None None None None None None None.

(** What [repair_inconsistent_resumable] can return: [False], [chunks],
    a triple, or nothing at all when no branch returns. *)
Inductive repaired :=
| RFalse
| RChunks (chunks : list dirent)
| RTriple (chunks : list dirent) (warning recommendation : option string)
| RNone.

(** ['next_offset'] in the reply: a number, [None], or ['end']. *)
Inductive offset := Offset (n : option Z) | OffsetEnd.

(** The dictionary [get_resumable_info] builds. *)
Record resumable_info := ResumableInfo {
  ri_filename : option string;
  ri_id : string;
  ri_chunk_size : option Z;
  ri_max_chunk : option Z;
  ri_md5sum : option string;
  ri_previous_offset : option Z;
  ri_next_offset : offset;
  ri_warning : option string;
  ri_group : option string }.

(** One element of the ['resumables'] list that [list_all_resumables]
    builds. *)
Record listed_resumable := Listed {
  l_chunk_size : Z;
  l_max_chunk : option Z;
  l_md5sum : option string;
  l_previous_offset : option Z;
  l_next_offset : offset;
  l_id : string;
  l_filename : option string;
  l_group : option string }.

(** The interpreter's recursion limit ([sys.getrecursionlimit()]). *)
Definition recursion_limit : nat := 1000.

Section Handler.

(** [_IS_VALID_UUID.match], [utils.md5sum] of a file's contents, and
    [os.stat] of an upload directory as (st_size, st_mtime). *)
Variable is_valid_uuid : string → bool.
Variable md5sum : bytes → string.
Variable dir_stat : string → Z * Z.
(** The authenticated user. *)
Variable user : string.

(** [find_nth_chunk(project_dir, upload_id, filename, n)]. *)
Definition find_nth_chunk (upload_id : string) (filename : string) (n : nat)
    : M string :=
  let n := (n - 1)%nat in
  let* files := os_listdir upload_id in
  let files := natural_sort files in
  let completed_chunks := filter (λ f, de_part f = false) files in
  let* c := the (completed_chunks !! n) IndexError in
  ret (entry_name c).

(** The loop over [candidates] in [find_relevant_resumable_dir]. *)
Fixpoint first_matching (filename : string) (candidates : list (Z * string))
    : M (option string) :=
  match candidates with
  | [] => ret None
  | cand :: rest =>
    let upload_id := cand.2 in
    let* first_chunk := find_nth_chunk upload_id filename 1 in
    if contains filename first_chunk then ret (Some cand.2)
    else first_matching filename rest
  end.

(** The loop that collects [candidates]. *)
Fixpoint collect (potential_resumables : list string) : M (list (Z * string)) :=
  match potential_resumables with
  | [] => ret []
  | pr :: rest =>
    let* there := lexists (Whole (UploadDir pr)) in
    let* more := collect rest in
    if is_valid_uuid pr && there then ret (((dir_stat pr).1, pr) :: more)
    else ret more
  end.

(** [find_relevant_resumable_dir(project_dir, filename, upload_id)]. *)
Definition find_relevant_resumable_dir (filename : string) (upload_id : option string)
    : M (option string) :=
  let* s := get_db in
  let potential_resumables := resumable_db_get_all_resumable_ids_for_user s user in
  match upload_id with
  | None =>
    let* candidates := collect potential_resumables in
    let candidates := sort_cmp resumables_cmp candidates in
    first_matching filename candidates
  | Some upload_id =>
    ret (last (filter (λ pr, is_valid_uuid pr = true ∧ upload_id = pr)
                 potential_resumables))
  end.

(** [repair_inconsistent_resumable(merged_file, chunks, merged_file_size,
    sum_chunks_size)]; [chunks] are the entries of upload directory [id]. *)
Definition repair_inconsistent_resumable (id : string) (merged_file : name)
    (chunks : list dirent) (merged_file_size sum_chunks_size : Z) : M repaired :=
  match last chunks with
  | None => ret RFalse
  | Some last_chunk =>
    let last_chunk := entry_path id last_chunk in
    let* last_chunk_size := stat_size last_chunk in
    if merged_file_size =? sum_chunks_size then ret (RChunks chunks)
    else
      try_except
        (let warning := None in
         let recommendation := None in
         let diff := sum_chunks_size - merged_file_size in
         if (merged_file_size <? sum_chunks_size) && (diff <=? last_chunk_size) then
           let target_size := sum_chunks_size - last_chunk_size in
           open_write merged_file ab_plus >>
           truncate merged_file target_size >>
           open_write merged_file ab_plus >>
           copyfileobj last_chunk merged_file >>
           let* new_merged_size := stat_size merged_file in
           if new_merged_size =? sum_chunks_size
           then ret (RTriple chunks warning recommendation)
           else raise (Exception "could not repair data")
         else ret RNone)
        (λ _, ret (RTriple chunks (Some "not sure what to do") (Some "end")))
  end.

(** The inner function [info] of [get_resumable_chunk_info]. It calls
    itself after a repair, with the default [recommendation] and
    [warning]; [depth] is what is left of the recursion limit. *)
Fixpoint info (depth : nat) (id : string) (chunks : list dirent)
    (recommendation warning : option string) : M chunk_info :=
  match depth with
  | O => raise (Exception "maximum recursion depth exceeded")
  | S depth' =>
    let* latest := the (last chunks) IndexError in
    let* num := match de_chunk latest with Num n => ret n | _ => raise ValueError end in
    let* latest_size := stat_size (entry_path id latest) in
    let* s := get_db in
    let next_offset := resumable_db_get_total_size s id in
    let previous_offset := next_offset - latest_size in
    let filename := de_file latest in
    let merged_file := Whole (MergedFile filename id) in
    let* merged_size := stat_size merged_file in
    if merged_size =? next_offset then
      let* data := read_all (entry_path id latest) in
      ret (ChunkInfo (Some latest_size) (Some num) (Some (md5sum data))
             (Some previous_offset) (Some next_offset) recommendation warning
             (Some filename))
    else
      try_except
        (let* merged_size := stat_size merged_file in
         let* r := repair_inconsistent_resumable id merged_file chunks
                     merged_size next_offset in
         match r with
         | RTriple chunks wanring recommendation => info depth' id chunks None None
         | RFalse | RNone => raise TypeError     (* nothing to unpack *)
         | RChunks _ => raise ValueError         (* not reached: the sizes differ *)
         end)
        (λ _, ret no_info)
  end.

(** [get_resumable_chunk_info(resumable_dir, project_dir)]. *)
Definition get_resumable_chunk_info (id : string) : M chunk_info :=
  let* all_chunks := os_listdir id in
  let all_chunks := natural_sort all_chunks in
  let chunks := filter (λ c, de_part c = false) all_chunks in
  info recursion_limit id chunks None None.

(** [get_resumable_info(project_dir, filename, upload_id)]. The caller
    unpacks the tuple with [warning] and [recommendation] in the other
    order. *)
Definition get_resumable_info (filename : string) (upload_id : option string)
    : M resumable_info :=
  let* relevant_dir := find_relevant_resumable_dir filename upload_id in
  let* relevant_dir := the relevant_dir (Exception "No resumable found") in
  let* ci := get_resumable_chunk_info relevant_dir in
  let warning := ci_recommendation ci in
  let recommendation := ci_warning ci in
  let* s := get_db in
  let group := upload_id ≫= resumable_db_get_group s in
  let next_offset :=
    if bool_decide (recommendation = Some "end") then OffsetEnd
    else Offset (ci_next_offset ci) in
  ret (ResumableInfo (ci_filename ci) relevant_dir (ci_latest_size ci) (ci_num ci)
         (ci_md5sum ci) (ci_previous_offset ci) next_offset warning group).

(** [get], for a request that names a file: the status with the info
    written, 400 with [self.message] otherwise. [filename] is [None] when
    [check_filename] raises. *)
Definition get (filename : option string) (upload_id : option string)
    : M (Z * option resumable_info) :=
  try_except
    (let* secured_filename := the filename (Exception "") in
     let* info := get_resumable_info secured_filename upload_id in
     ret (200, Some info))
    (λ _, ret (400, None)).

(** One pass of the loop of [list_all_resumables]: the entry appended for
    [pr], if any. Whatever [get_resumable_chunk_info] raises is dropped, and
    so is an upload whose [chunk_size] is [None] or zero. *)
Definition list_one (pr : string) : M (option listed_resumable) :=
  if is_valid_uuid pr then
    let* r := attempt (get_resumable_chunk_info pr) in
    match r with
    | Ret ci =>
      let warning := ci_recommendation ci in
      let recommendation := ci_warning ci in
      let next_offset :=
        if bool_decide (recommendation = Some "end") then OffsetEnd
        else Offset (ci_next_offset ci) in
      match ci_latest_size ci with
      | Some chunk_size =>
        if chunk_size =? 0 then ret None
        else
          let* s := get_db in
          let group := resumable_db_get_group s pr in
          ret (Some (Listed chunk_size (ci_num ci) (ci_md5sum ci) (ci_previous_offset ci)
                       next_offset pr (ci_filename ci) group))
      | None => ret None
      end
    | Raise _ => ret None
    end
  else ret None.

Fixpoint list_each (potential_resumables : list string) : M (list listed_resumable) :=
  match potential_resumables with
  | [] => ret []
  | pr :: rest =>
    let* this := list_one pr in
    let* more := list_each rest in
    ret (option_list this ++ more)
  end.

(** [list_all_resumables(project_dir)]. *)
Definition list_all_resumables : M (list listed_resumable) :=
  let* s := get_db in
  list_each (resumable_db_get_all_resumable_ids_for_user s user).

(** [delete_resumable(project_dir, filename, upload_id)]. *)
Definition delete_resumable (filename upload_id : string) : M bool :=
  try_except
    (let* s := get_db in
     assert (resumable_db_upload_belongs_to_user s upload_id user) >>
     let relevant_dir := Whole (UploadDir upload_id) in
     let relevant_merged_file := Whole (MergedFile filename upload_id) in
     shutil_rmtree relevant_dir >>
     os_remove relevant_merged_file >>
     let* s := get_db in
     let '(ok, s') := resumable_db_remove_completed_for_user s upload_id user in
     put_db s' >> assert ok >>
     ret true)
    (λ _, ret false).

(** [delete]: the status and the message written. [secured_filename] is
    [None] when [check_filename] raises; the file name itself is what
    [delete_resumable] is given. *)
Definition delete (filename : string) (secured_filename : option string)
    (upload_id : option string) : M (Z * string) :=
  try_except
    (the secured_filename (Exception "") >>
     let* upload_id := the upload_id (Exception "upload id required to delete resumable") in
     let* deleted := delete_resumable filename upload_id in
     assert deleted >>
     ret (200, "resumable deleted"))
    (λ _, ret (400, "cannot delete resumable")).

End Handler.

End ResumablesHandler.

(** * Properties *)

(** ** Range downloads and the ETag *)

Section DownloadFacts.
Import Download.

Context {T : Type} (str : T → string) (md5_hexdigest : string → string).
Context (check_filename : string → option string) (magic_from_file : file T → string).
Context (export_chunk_size : Z) (export_policy : gmap string policy).
Context (default_policy : policy) (export_max_size : Z).

Local Abbreviation get_file := (get str md5_hexdigest check_filename magic_from_file
  export_chunk_size export_policy default_policy export_max_size).
Local Abbreviation policy_of := (enforce_export_policy check_filename magic_from_file
  export_policy default_policy export_max_size).

(** A request that gets as far as looking at its [Range] header: the
    token is valid, the file is there and may be exported. *)
Definition served (dir : gmap string (file T)) (rq : request) (f : file T) : Prop :=
  ∃ user filename secured,
    rq_authnz rq = Authorized user ∧ rq_pnum_valid rq = true ∧
    rq_filename rq = Some filename ∧ check_filename filename = Some secured ∧
    dir !! secured = Some f ∧ (policy_of secured f (rq_pnum rq)).1.1.1 = true.

Lemma get_served dir rq f r :
  served dir rq f → rq_range rq = Some r →
  ∃ mime, get_file dir rq = Some (get_range str md5_hexdigest export_chunk_size f mime rq r).
Proof.
  intros (user & filename & secured & Hauth & Hpnum & Hname & Hcheck & Hfile & Hpol) Hr.
  unfold get. rewrite Hauth, Hpnum, Hname, Hcheck, Hfile. simpl.
  destruct (policy_of secured f (rq_pnum rq)) as [[[ok mime] size] msg].
  simpl in Hpol. subst ok. simpl. rewrite Hr. by exists mime.
Qed.

(** Enough passes are granted to the range loop: more would not change
    what is sent. *)
Lemma stream_range_fuel fuel1 fuel2 chunk n data pos cur sent out :
  (length data - pos + 2 ≤ fuel1)%nat → (length data - pos + 2 ≤ fuel2)%nat →
  stream_range fuel1 chunk n data pos cur sent out
  = stream_range fuel2 chunk n data pos cur sent out.
Proof.
  revert fuel2 pos cur sent out.
  induction fuel1 as [|fuel1 IH]; intros fuel2 pos cur sent out H1 H2; [lia|].
  destruct fuel2 as [|fuel2]; [lia|]. simpl.
  destruct cur as [|b cur]; [done|].
  destruct (sent <=? n); [|done].
  set (next := read data pos chunk).
  destruct next as [|b' next'] eqn:Hnext.
  - destruct fuel1, fuel2; simpl; try done; lia.
  - assert (length next ≤ length data - pos)%nat as Hlen.
    { subst next. unfold read. destruct (chunk <? 0).
      - by rewrite length_drop.
      - rewrite length_take, length_drop. lia. }
    rewrite Hnext in Hlen. simpl in Hlen.
    apply IH; simpl; lia.
Qed.

(** A range that fits in one chunk is served exactly. *)
Lemma get_range_within_one_chunk f mime rq a b :
  rq_if_range rq = None →
  0 ≤ a → a ≤ b → b < st_size f → b - a + 1 ≤ export_chunk_size →
  get_range str md5_hexdigest export_chunk_size f mime rq (Range false (Some a) (Some b))
  = Response 200 mime (Some (b - a + 1))
      (take (Z.to_nat (b - a + 1)) (drop (Z.to_nat a) (f_data f))) None.
Proof.
  intros Hif Ha Hab Hb Hc. unfold get_range, st_size in *. rewrite Hif. simpl.
  destruct (b >? Z.of_nat (length (f_data f))) eqn:Hgt; [lia|].
  set (n := b - a + 1).
  assert ((if export_chunk_size >? n then n else export_chunk_size) = n) as ->.
  { destruct (export_chunk_size >? n) eqn:?; lia. }
  f_equal. unfold loop_fuel, read.
  destruct (n <? 0) eqn:?; [lia|].
  set (d := take (Z.to_nat n) (drop (Z.to_nat a) (f_data f))).
  assert (length d = Z.to_nat n) as Hd.
  { subst d. rewrite length_take, length_drop. lia. }
  simpl. destruct d as [|x d'] eqn:Hdd; [simpl in Hd; lia|].
  destruct (n <=? n) eqn:?; [|lia].
  destruct (take (Z.to_nat n) (drop (Z.to_nat a + length (x :: d')) (f_data f))) eqn:Hnext;
    [done|].
  destruct (n + n <=? n) eqn:?; [lia|]. done.
Qed.

(** The range loop pass by pass. *)
Lemma read_at (data : bytes) (pos : nat) (c : Z) :
  0 ≤ c → read data pos c = take (Z.to_nat c) (drop pos data).
Proof. intros Hc. unfold read. destruct (c <? 0) eqn:?; [lia|done]. Qed.

Lemma stream_range_step fuel c n (data : bytes) pos cur sent out :
  cur ≠ [] → sent ≤ n →
  stream_range (S fuel) c n data pos cur sent out
  = stream_range fuel c n data (pos + length (read data pos c))%nat (read data pos c)
      (sent + c) (out ++ cur).
Proof.
  intros Hcur Hsent. simpl. destruct cur; [done|].
  destruct (sent <=? n) eqn:?; [done|lia].
Qed.

Lemma stream_range_stop fuel c n (data : bytes) pos cur sent out :
  n < sent → stream_range fuel c n data pos cur sent out = out.
Proof.
  intros Hsent. destruct fuel; [done|]. simpl. destruct cur; [done|].
  destruct (sent <=? n) eqn:?; [lia|done].
Qed.

(** With [k] whole chunks of [c] bytes in the [n] bytes asked for, the loop
    writes those [k] chunks and stops. *)
Lemma stream_range_whole_chunks (data : bytes) (a : nat) (c n : Z) (k : nat) :
  0 < c → Z.of_nat k * c ≤ n → n < (Z.of_nat k + 1) * c →
  (Z.of_nat a + n ≤ Z.of_nat (length data)) →
  ∀ j i fuel, (i + j = k)%nat → (j < fuel)%nat →
    stream_range fuel c n data
      (a + i * Z.to_nat c + length (take (Z.to_nat c) (drop (a + i * Z.to_nat c) data)))
      (take (Z.to_nat c) (drop (a + i * Z.to_nat c) data))
      ((Z.of_nat i + 1) * c)
      (take (i * Z.to_nat c) (drop a data))
    = take (k * Z.to_nat c) (drop a data).
Proof.
  intros Hc Hlo Hhi Hfit. set (cn := Z.to_nat c).
  induction j as [|j IH]; intros i fuel Hij Hfuel.
  - assert (i = k) as -> by lia. by apply stream_range_stop.
  - destruct fuel as [|fuel]; [lia|].
    assert ((Z.of_nat i + 1) * c ≤ n) as Hin by nia.
    assert (length (take cn (drop (a + i * cn) data)) = cn) as Hfull.
    { rewrite length_take, length_drop. subst cn. nia. }
    rewrite stream_range_step; [|intros Hnil; rewrite Hnil in Hfull; simpl in Hfull; lia|done].
    rewrite read_at by lia. fold cn. rewrite Hfull.
    replace (a + i * cn + cn)%nat with (a + S i * cn)%nat by lia.
    replace ((Z.of_nat i + 1) * c + c) with ((Z.of_nat (S i) + 1) * c) by lia.
    replace (take (i * cn) (drop a data) ++ take cn (drop (a + i * cn) data))
      with (take (S i * cn) (drop a data)).
    + apply IH; lia.
    + replace (S i * cn)%nat with (i * cn + cn)%nat by lia.
      by rewrite <- take_take_drop, drop_drop.
Qed.

(** What a range request gets: [Content-Length] is the length of the
    range, the body is the range cut down to a whole number of chunks. *)
Lemma get_range_sends_whole_chunks f mime rq a b :
  rq_if_range rq = None →
  0 ≤ a → a ≤ b → b < st_size f → 0 < export_chunk_size →
  let n := b - a + 1 in
  let c := Z.min export_chunk_size n in
  get_range str md5_hexdigest export_chunk_size f mime rq (Range false (Some a) (Some b))
  = Response 200 mime (Some n)
      (take (Z.to_nat (c * (n / c))) (drop (Z.to_nat a) (f_data f))) None.
Proof.
  intros Hif Ha Hab Hb Hc n c. unfold get_range, st_size in *. rewrite Hif.
  cbn -[stream_range read loop_fuel Z.gtb Z.sub Z.add Z.of_nat Z.to_nat].
  destruct (b >? Z.of_nat (length (f_data f))) eqn:Hgt; [lia|].
  fold n.
  assert ((if export_chunk_size >? n then n else export_chunk_size) = c) as ->.
  { subst c. destruct (export_chunk_size >? n) eqn:?; lia. }
  assert (0 < c) as Hcpos by (subst c n; lia).
  f_equal. rewrite read_at by lia.
  pose proof (Z.mul_div_le n c Hcpos) as Hlo.
  pose proof (Z.mul_succ_div_gt n c Hcpos) as Hhi.
  assert (0 ≤ n / c) as Hk by (apply Z.div_pos; subst n; lia).
  pose proof (stream_range_whole_chunks (f_data f) (Z.to_nat a) c n (Z.to_nat (n / c)))
    as Hloop.
  specialize (Hloop Hcpos). rewrite Z2Nat.id in Hloop by done.
  specialize (Hloop ltac:(lia) ltac:(lia) ltac:(subst n; lia)
                (Z.to_nat (n / c)) 0%nat (loop_fuel (f_data f)) ltac:(lia)).
  change (0 * Z.to_nat c)%nat with 0%nat in Hloop.
  change (Z.of_nat 0 + 1) with 1 in Hloop.
  rewrite Nat.add_0_r, Z.mul_1_l, take_0 in Hloop.
  rewrite Hloop.
  - f_equal. rewrite <- Z2Nat.inj_mul by lia. f_equal. lia.
  - unfold loop_fuel. assert (n / c ≤ n) by (apply Z.div_le_upper_bound; nia).
    subst n. lia.
Qed.

(** C9: the ETag of a served file is the md5 digest of the stringified
    mtime of that file, and a range request whose [If-Range] header differs
    from the ETag computed now (the file was touched since the header value
    was obtained, say) is answered with status 400 and no file data. *)
Theorem etag_is_md5_of_mtime_and_stale_if_range_is_400 dir rq f r provided_etag :
  served dir rq f → rq_range rq = Some r → rq_if_range rq = Some provided_etag →
  Some provided_etag ≠ compute_etag str md5_hexdigest (Some f) →
  compute_etag str md5_hexdigest (Some f) = Some (md5_hexdigest (str (f_mtime f))) ∧
  ∃ resp, get_file dir rq = Some resp ∧ status resp = 400 ∧ body resp = [] ∧
          message resp = Some msg_changed.
Proof.
  intros Hserved Hr Hif Hne. split; [done|].
  destruct (get_served dir rq f r Hserved Hr) as [mime ->].
  eexists. split; [done|].
  unfold get_range. rewrite Hif. simpl.
  by rewrite bool_decide_true.
Qed.

End DownloadFacts.

(** A small export directory: [hello.bin] of six bytes, served in chunks of
    four, its mtime an integer printed in decimal, and a stand-in digest. *)
Definition example_digest (s : string) : string := "md5:" +:+ s.
Definition example_file (mtime : Z) : Download.file Z :=
  Download.File [x00; x01; x02; x03; x04; x05] mtime.
Definition example_export (mtime : Z) (rq : Download.request) : option Download.response :=
  Download.get pretty example_digest Some (λ _, "application/octet-stream") 4 ∅
    (Download.Policy false [] None) 0 {["hello.bin" := example_file mtime]} rq.
Definition example_range_request (a b : Z) (if_range : option string) : Download.request :=
  Download.Request (Download.Authorized "alice") "p11" true (Some "hello.bin")
    (Some (Download.Range false (Some a) (Some b))) if_range.

Lemma etag_is_md5_of_mtime_and_stale_if_range_is_400_witness :
  Download.compute_etag pretty example_digest (Some (example_file 200))
  = Some (example_digest (pretty (Download.f_mtime (example_file 200)))) ∧
  ∃ resp, example_export 200 (example_range_request 1 2 (Some "md5:100")) = Some resp ∧
          Download.status resp = 400 ∧ Download.body resp = [] ∧
          Download.message resp = Some Download.msg_changed.
Proof.
  apply (etag_is_md5_of_mtime_and_stale_if_range_is_400 pretty example_digest Some
           (λ _, "application/octet-stream") 4 ∅ (Download.Policy false [] None) 0
           {["hello.bin" := example_file 200]}
           (example_range_request 1 2 (Some "md5:100")) (example_file 200)
           (Download.Range false (Some 1) (Some 2)) "md5:100").
  - exists "alice", "hello.bin", "hello.bin". repeat split; reflexivity.
  - reflexivity.
  - reflexivity.
  - vm_compute. discriminate.
Defined.

(** The range of scenario S4 fits in one chunk and comes back whole. *)
Example range_1_2_of_six_bytes :
  example_export 200 (example_range_request 1 2 None)
  = Some (Download.Response 200 (Some "application/octet-stream") (Some 2) [x01; x02] None).
Proof. reflexivity. Qed.

(** C2, at a failing input: six bytes served in chunks of four. For
    [Range: bytes=0-5] the handler announces [Content-Length: 6] and writes
    the first chunk only, bytes 0..3: the loop counts [sent] in whole chunks
    and stops before the last, shorter one. *)
Theorem range_body_stops_short_of_last_partial_chunk :
  example_export 200 (example_range_request 0 5 None)
  = Some (Download.Response 200 (Some "application/octet-stream") (Some 6)
            [x00; x01; x02; x03] None).
Proof. reflexivity. Qed.

(** ** Direct uploads through [StreamHandler] *)

Import Fs Store Sys.

(** Unfolds the plumbing of the handlers so that rewriting with facts about
    the disk can decide each test. *)
Ltac run :=
  cbv [bind ret raise try_except try_finally attempt the assert lexists isdir
       get_fs put_fs get_db put_db get_self put_self get_env count_write
       set_paths set_target_file set_status set_merged_file set_chunk
       set_chunk_order_correct set_resumable_is_complete write finish
       StreamHandler.validate_token close_target_file
       StreamHandler.target_file_write append
       os_rename os_remove os_link open_write shutil_rmtree stat_size read_all
       parent_ok parent part_of inside
       fs db self env writes_done
       resumable_is_complete merged_file target_file path path_part chunk_order_correct
       chunk_num upload_id status_code written finished of_name of_closed]; simpl.

Ltac disk_facts m :=
  repeat (rewrite ?lookup_insert_eq, ?lookup_delete_eq; simpl;
          rewrite ?(map_filter_id _ (delete _ m)) by done;
          rewrite ?lookup_insert_ne, ?lookup_delete_ne by done;
          rewrite ?delete_id by done; simpl).

(** Two disks are the same when they agree at the paths [p] and [pp] that
    were touched and everywhere else. *)
Ltac same_disk p pp :=
  let q := fresh "q" in
  apply map_eq; intros q;
  destruct (decide (q = p)) as [->|]; [|destruct (decide (q = pp)) as [->|]];
  repeat (rewrite ?lookup_insert_eq, ?lookup_delete_eq;
          rewrite ?lookup_insert_ne, ?lookup_delete_ne by done);
  try done.

Section DirectUploadFacts.
Import StreamHandler.

(** The disk once [prepare] has set up a direct upload of [f] under the
    partial name drawn with [u]: whatever was at the canonical name is gone
    from there, and the partial file holds the old contents (append mode,
    regular file) or nothing. *)
Definition kept (m : gmap name node) (f : string) (mode : filemode) : bytes :=
  match m !! Whole (Target f), mode with
  | Some (Regular old), ab_plus => old
  | _, _ => []
  end.
Definition staged (m : gmap name node) (f u : string) (mode : filemode) : gmap name node :=
  <[Part (Target f) u := Regular (kept m f mode)]> (delete (Whole (Target f)) m).

(** The handler during a direct upload of [f]. *)
Definition receiving (f u : string) (closed : bool) : handler :=
  Handler true None (Some (OpenFile (Part (Target f) u) closed))
    (Some (Part (Target f) u)) (Some (Whole (Target f))) None None None 200 [] false.

Definition direct (rq : request) (f : string) (mode : filemode) : Prop :=
  (rq_method rq = POST ∨ rq_method rq = PUT) ∧
  filemode_of (rq_method rq) = Some mode ∧
  rq_token_valid rq = true ∧ rq_pnum_valid rq = true ∧ rq_content_type rq = true ∧
  rq_filename rq = Some f.

Lemma prepare_direct rq w f mode :
  direct rq f mode →
  fs w !! Part (Target f) (rq_part_uuid rq) = None →
  prepare rq w =
    (Ret tt, World (staged (fs w) f (rq_part_uuid rq) mode) (db w)
               (receiving f (rq_part_uuid rq) false) (env w) (writes_done w)).
Proof.
  intros (Hm & Hmode & Htok & Hpnum & Hct & Hf) Hfresh.
  destruct rq as [meth tok user pv ct fname chunk id grp nid u body]; simpl in *. subst.
  destruct w as [m s h e n]; simpl in *.
  unfold staged, kept, receiving.
  destruct Hm as [-> | ->]; simpl in Hmode; injection Hmode as <-;
    destruct (m !! Whole (Target f)) as [[old|]|] eqn:Hp;
    unfold prepare; run;
    repeat (rewrite ?Hfresh, ?Hp; disk_facts m);
    try done.
  all: by rewrite insert_insert_eq.
Qed.



Lemma receive_without_fault f u chunks : ∀ w d,
  self w = receiving f u false → write_fault (env w) = None →
  fs w !! Part (Target f) u = Some (Regular d) →
  receive chunks w =
    (Ret tt, World (<[Part (Target f) u := Regular (d ++ concat chunks)]> (fs w)) (db w)
               (receiving f u false) (env w) (writes_done w + length chunks)%nat).
Proof.
  induction chunks as [|chunk chunks IH]; intros [m s h e n] d; simpl; intros -> He Hd.
  - unfold ret. rewrite app_nil_r, insert_id by done. repeat f_equal. lia.
  - unfold bind at 1. unfold data_received. run. rewrite He. simpl. rewrite Hd. simpl.
    erewrite IH; simpl; [|done|done|apply lookup_insert_eq].
    rewrite insert_insert_eq, app_assoc. repeat f_equal. lia.
Qed.

(** [post] and [put] on a fully received body: the partial file moves to
    the canonical name. *)
Definition answered (f u : string) : handler :=
  Handler true None (Some (OpenFile (Part (Target f) u) true))
    (Some (Part (Target f) u)) (Some (Whole (Target f))) None None None 201
    [JMessage msg_streamed] false.

Lemma method_handler_direct meth f u m s e n d :
  meth = POST ∨ meth = PUT →
  m !! Part (Target f) u = Some (Regular d) → m !! Whole (Target f) = None →
  method_handler meth (World m s (receiving f u false) e n) =
    (Ret tt, World (<[Whole (Target f) := Regular d]> (delete (Part (Target f) u) m)) s
               (answered f u) e n).
Proof.
  intros [-> | ->] Hpp Hp; simpl; unfold post, put; run; by rewrite Hpp, Hp.
Qed.

Lemma on_finish_direct rq f u m s e n :
  on_finish rq (World m s (answered f u) e n) = (Ret tt, World m s (answered f u) e n).
Proof. unfold on_finish. by run. Qed.

(** A direct upload that meets no failure: 201, and the only change on
    disk is at the canonical name, which now holds what the open mode kept
    of the old file followed by the body. *)
Lemma serve_direct rq w f mode :
  direct rq f mode →
  fs w !! Part (Target f) (rq_part_uuid rq) = None →
  write_fault (env w) = None →
  ∃ w', serve rq w = (Reply 201 [JMessage msg_streamed], w') ∧
        fs w' = <[Whole (Target f) := Regular (kept (fs w) f mode ++ concat (rq_body rq))]> (fs w) ∧
        db w' = db w.
Proof.
  intros Hdirect Hfresh Hfault.
  pose proof (prepare_direct rq w f mode Hdirect Hfresh) as Hprep.
  destruct Hdirect as (Hm & _).
  unfold serve. rewrite Hprep. simpl.
  erewrite receive_without_fault; simpl; [|done|done|apply lookup_insert_eq].
  unfold staged. rewrite insert_insert_eq.
  erewrite method_handler_direct; [|done|apply lookup_insert_eq|].
  2: { rewrite lookup_insert_ne by done. apply lookup_delete_eq. }
  rewrite on_finish_direct. simpl. eexists. split; [done|]. simpl. split; [|done].
  rewrite delete_insert_eq.
  rewrite (delete_id (delete _ _)) by (by rewrite lookup_delete_ne).
  by rewrite insert_delete_eq.
Qed.



(** C6, as amended: a direct upload to a name that holds a regular file,
    when it succeeds, leaves the new data at the canonical name (the body
    alone for PUT, the old bytes followed by the body for POST), no file
    under the partial name, and every other path as it was. The old file is
    the one written to: it is not kept aside. *)
Theorem direct_upload_over_existing_file rq w f mode old :
  direct rq f mode →
  fs w !! Part (Target f) (rq_part_uuid rq) = None →
  write_fault (env w) = None →
  fs w !! Whole (Target f) = Some (Regular old) →
  ∃ w', serve rq w = (Reply 201 [JMessage msg_streamed], w') ∧
        fs w' !! Whole (Target f)
        = Some (Regular (match mode with ab_plus => old | wb_plus => [] end
                         ++ concat (rq_body rq))) ∧
        fs w' !! Part (Target f) (rq_part_uuid rq) = None ∧
        ∀ q, q ≠ Whole (Target f) → fs w' !! q = fs w !! q.
Proof.
  intros Hdirect Hfresh Hfault Hold.
  destruct (serve_direct rq w f mode Hdirect Hfresh Hfault) as (w' & Hserve & Hfs & _).
  exists w'. split; [done|]. rewrite Hfs. unfold kept. rewrite Hold.
  split; [|split].
  - rewrite lookup_insert_eq. by destruct mode.
  - by rewrite lookup_insert_ne.
  - intros q Hq. by rewrite lookup_insert_ne.
Qed.

End DirectUploadFacts.

(** ** Form uploads *)

Section FormUploadFacts.
Import FormDataHandler.

(** One non-empty file posted to a name that holds a regular file. *)
Lemma handle_data_over_existing_file mode f body u w old :
  body ≠ [] →
  fs w !! Part (Target f) u = None →
  fs w !! Whole (Target f) = Some (Regular old) →
  ∃ w', handle_data mode [FormFile (Some f) body u] w = (Ret tt, w') ∧
        status_code (self w') = 201 ∧
        fs w' = <[Whole (Target f) :=
                    Regular (match mode with ab_plus => old | wb_plus => [] end ++ body)]> (fs w).
Proof.
  intros Hbody Hfresh Hold. destruct w as [m s h e n]. simpl in *.
  unfold handle_data, write_files, write_each, write_file. run.
  rewrite bool_decide_false by done. simpl.
  destruct mode; repeat (simpl; rewrite ?Hfresh, ?Hold; disk_facts m);
    eexists; (split; [done|]); simpl; (split; [done|]);
    same_disk (Whole (Target f)) (Part (Target f) u).
Qed.

End FormUploadFacts.

(** C10, as amended: the open mode depends on the method and on the
    handler. [StreamHandler] opens with ['ab+'] for POST and with ['wb+'] for
    PUT and PATCH; [FormDataHandler] opens with ['ab+'] for POST and for
    PATCH and with ['wb+'] for PUT. Over a file already at the target name,
    ['ab+'] puts the new body after the old bytes and ['wb+'] replaces them by
    the new body. *)
Theorem open_mode_by_method_and_handler rq w f mode old u body :
  direct rq f mode →
  fs w !! Part (Target f) (StreamHandler.rq_part_uuid rq) = None →
  fs w !! Part (Target f) u = None →
  write_fault (env w) = None →
  fs w !! Whole (Target f) = Some (Regular old) →
  body ≠ [] →
  (StreamHandler.filemode_of POST = Some ab_plus ∧
   StreamHandler.filemode_of PUT = Some wb_plus ∧
   StreamHandler.filemode_of PATCH = Some wb_plus) ∧
  (∃ w', StreamHandler.serve rq w
         = (StreamHandler.Reply 201 [JMessage StreamHandler.msg_streamed], w') ∧
         fs w' !! Whole (Target f)
         = Some (Regular (match StreamHandler.rq_method rq with
                          | POST => old ++ concat (StreamHandler.rq_body rq)
                          | _ => concat (StreamHandler.rq_body rq)
                          end))) ∧
  (∃ w', FormDataHandler.post [FormDataHandler.FormFile (Some f) body u] w = (Ret tt, w') ∧
         fs w' !! Whole (Target f) = Some (Regular (old ++ body))) ∧
  (∃ w', FormDataHandler.patch [FormDataHandler.FormFile (Some f) body u] w = (Ret tt, w') ∧
         fs w' !! Whole (Target f) = Some (Regular (old ++ body))) ∧
  (∃ w', FormDataHandler.put [FormDataHandler.FormFile (Some f) body u] w = (Ret tt, w') ∧
         fs w' !! Whole (Target f) = Some (Regular body)).
Proof.
  intros Hdirect Hfresh Hfresh' Hfault Hold Hbody. split; [done|]. split.
  - destruct (serve_direct rq w f mode Hdirect Hfresh Hfault)
      as (w' & Hserve & Hfs & _).
    exists w'. split; [done|]. rewrite Hfs, lookup_insert_eq.
    unfold kept. rewrite Hold.
    destruct Hdirect as ([Hm | Hm] & Hmode & _); rewrite Hm in *; simpl in Hmode;
      by injection Hmode as <-.
  - unfold FormDataHandler.post, FormDataHandler.patch, FormDataHandler.put.
    repeat split.
    all: match goal with
         | |- context [FormDataHandler.handle_data ?m] =>
           destruct (handle_data_over_existing_file m f body u w old Hbody Hfresh' Hold)
             as (w' & Hrun & _ & Hfs)
         end.
    all: exists w'; split; [done|]; by rewrite Hfs, lookup_insert_eq.
Qed.

(** *** Examples on a disk that holds [hello.bin] with contents "old" *)

Definition old_bytes : bytes := [x6f; x6c; x64].
Definition new_bytes : bytes := [x6e; x65; x77].
Definition example_disk : gmap name node :=
  {[Whole (Target "hello.bin") := Regular old_bytes]}.
Definition example_world (m : gmap name node) (s : store) (e : faults) : world :=
  World m s fresh_handler e 0.
Definition example_upload (m : method) (body : list bytes) : StreamHandler.request :=
  StreamHandler.Request m true "alice" true true (Some "hello.bin") None None None
    "1b4e28ba" "0f0e7a6c" body.

Lemma example_upload_direct :
  direct (example_upload PUT [new_bytes]) "hello.bin" wb_plus.
Proof. repeat split; auto. Qed.



Lemma direct_upload_over_existing_file_witness :
  ∃ w', StreamHandler.serve (example_upload PUT [new_bytes])
          (example_world example_disk [] no_faults)
        = (StreamHandler.Reply 201 [JMessage StreamHandler.msg_streamed], w') ∧
        fs w' !! Whole (Target "hello.bin") = Some (Regular ([] ++ concat [new_bytes])) ∧
        fs w' !! Part (Target "hello.bin") "0f0e7a6c" = None ∧
        ∀ q, q ≠ Whole (Target "hello.bin") → fs w' !! q = example_disk !! q.
Proof.
  apply (direct_upload_over_existing_file (example_upload PUT [new_bytes])
           (example_world example_disk [] no_faults) "hello.bin" wb_plus old_bytes).
  - apply example_upload_direct.
  - reflexivity.
  - reflexivity.
  - reflexivity.
Defined.

(** C6, as stated, fails: after a successful PUT over [hello.bin] the disk
    holds the new bytes at the canonical name and nothing else; the old
    contents are under no name. *)
Lemma prior_file_not_kept_under_part_name :
  let r := StreamHandler.serve (example_upload PUT [new_bytes])
             (example_world example_disk [] no_faults) in
  r.1 = StreamHandler.Reply 201 [JMessage StreamHandler.msg_streamed] ∧
  map_to_list (fs r.2) = [(Whole (Target "hello.bin"), Regular new_bytes)] ∧
  fs r.2 !! Part (Target "hello.bin") "0f0e7a6c" ≠ Some (Regular old_bytes).
Proof. repeat split; vm_compute; (reflexivity || discriminate). Qed.

Lemma open_mode_by_method_and_handler_witness :
  (StreamHandler.filemode_of POST = Some ab_plus ∧
   StreamHandler.filemode_of PUT = Some wb_plus ∧
   StreamHandler.filemode_of PATCH = Some wb_plus) ∧
  (∃ w', StreamHandler.serve (example_upload PUT [new_bytes])
           (example_world example_disk [] no_faults)
         = (StreamHandler.Reply 201 [JMessage StreamHandler.msg_streamed], w') ∧
         fs w' !! Whole (Target "hello.bin") = Some (Regular (concat [new_bytes]))) ∧
  (∃ w', FormDataHandler.post [FormDataHandler.FormFile (Some "hello.bin") new_bytes "77aa"]
           (example_world example_disk [] no_faults) = (Ret tt, w') ∧
         fs w' !! Whole (Target "hello.bin") = Some (Regular (old_bytes ++ new_bytes))) ∧
  (∃ w', FormDataHandler.patch [FormDataHandler.FormFile (Some "hello.bin") new_bytes "77aa"]
           (example_world example_disk [] no_faults) = (Ret tt, w') ∧
         fs w' !! Whole (Target "hello.bin") = Some (Regular (old_bytes ++ new_bytes))) ∧
  (∃ w', FormDataHandler.put [FormDataHandler.FormFile (Some "hello.bin") new_bytes "77aa"]
           (example_world example_disk [] no_faults) = (Ret tt, w') ∧
         fs w' !! Whole (Target "hello.bin") = Some (Regular new_bytes)).
Proof.
  apply (open_mode_by_method_and_handler (example_upload PUT [new_bytes])
           (example_world example_disk [] no_faults) "hello.bin" wb_plus old_bytes
           "77aa" new_bytes).
  - apply example_upload_direct.
  - reflexivity.
  - reflexivity.
  - reflexivity.
  - reflexivity.
  - discriminate.
Defined.

(** C10, as stated, fails for form uploads: [PATCH] opens with ['ab+'], so
    the new body comes after the old bytes instead of replacing them. *)
Lemma form_patch_appends_to_existing_file :
  let r := FormDataHandler.patch
             [FormDataHandler.FormFile (Some "hello.bin") new_bytes "77aa"]
             (example_world example_disk [] no_faults) in
  r.1 = Ret tt ∧ status_code (self r.2) = 201 ∧
  map_to_list (fs r.2) = [(Whole (Target "hello.bin"), Regular (old_bytes ++ new_bytes))] ∧
  fs r.2 !! Whole (Target "hello.bin") ≠ Some (Regular new_bytes).
Proof. repeat split; vm_compute; (reflexivity || discriminate). Qed.

(** ** Resumable uploads: the order of chunks *)

Section ChunkOrderFacts.
Import StreamHandler.

(** What [refuse_upload_if_not_in_sequential_order] reads off the disk: the
    chunk number of the last complete entry of the sorted listing of upload
    directory [id]. *)
Definition listing (m : gmap name node) (id : string) : list dirent :=
  omap (dirent_of id) (map_to_list m).*1.
Definition complete_chunks (m : gmap name node) (id : string) : list dirent :=
  filter (λ c, de_part c = false) (natural_sort (listing m id)).
Definition previous_chunk_num (m : gmap name node) (id : string) : option Z :=
  match m !! Whole (UploadDir id) with
  | Some Directory =>
    match last (complete_chunks m id) with
    | Some (Dirent _ (Num n) _) => Some n
    | _ => None
    end
  | _ => None
  end.

Global Instance natural_le_total : Total natural_le.
Proof.
  intros [? a ?] [? b ?]. unfold natural_le. simpl.
  destruct a, b; simpl; auto. destruct (Z.leb_spec n n0), (Z.leb_spec n0 n); auto; lia.
Qed.
Global Instance natural_le_trans : Transitive natural_le.
Proof.
  intros [? a ?] [? b ?] [? c ?]. unfold natural_le. simpl.
  destruct a, b, c; simpl; auto; try done.
  intros ?%Is_true_true%Z.leb_le ?%Is_true_true%Z.leb_le.
  apply Is_true_true, Z.leb_le. lia.
Qed.



Global Instance natural_le_refl : Reflexive natural_le.
Proof. intros x. by destruct (total natural_le x x). Qed.
















End ChunkOrderFacts.


(** *** Scenario S2 after its first chunk: upload [u1] of [x.bin] *)

Definition chunk_A : bytes := [x41; x41; x41].
Definition chunk_B : bytes := [x42; x42; x42].
Definition upload_disk : gmap name node :=
  <[Whole (UploadDir "u1") := Directory]>
  (<[Whole (Chunk "u1" "x.bin" 1) := Regular chunk_A]>
  (<[Whole (MergedFile "x.bin" "u1") := Regular chunk_A]> ∅)).
Definition upload_store : store := [Upload "u1" "alice" "p11-member-group" [(1, 3)]].
Definition chunk_patch (k : Z) (body : list bytes) : StreamHandler.request :=
  StreamHandler.Request PATCH true "alice" true true (Some "x.bin") (Some (Num k))
    (Some "u1") (Some "p11-member-group") "u2" "0f0e7a6c" body.



(** Scenario S3: chunk 3 after chunk 1. *)
Example chunk_3_after_chunk_1 :
  let r := ProxyHandler.relay (chunk_patch 3 [chunk_B])
             (example_world upload_disk upload_store no_faults) in
  r.1 = StreamHandler.Reply 400 [JMessage "chunk_order_incorrect"] ∧
  map_to_list (fs r.2) = map_to_list upload_disk ∧ db r.2 = upload_store.
Proof. repeat split; vm_compute; reflexivity. Qed.

(** C5, at a failing input: chunk 2 of the upload, with the copy into the
    merged file failing after one byte. The handler removes the chunk file
    and truncates the merged file back to its three bytes, the store is
    left alone, and then the request goes on as if the merge had worked:
    the client is answered 201 with [max_chunk] 2. *)
Theorem failed_merge_is_rolled_back_and_answered_201 :
  let r := ProxyHandler.relay (chunk_patch 2 [chunk_B])
             (example_world upload_disk upload_store (Faults (Some 1%nat) false None)) in
  r.1 = StreamHandler.Reply 201 [JChunk "x.bin" (Some "u1") (Some (Num 2))] ∧
  fs r.2 !! Whole (MergedFile "x.bin" "u1") = Some (Regular chunk_A) ∧
  fs r.2 !! Whole (Chunk "u1" "x.bin" 2) = None ∧
  db r.2 = upload_store.
Proof. repeat split; vm_compute; reflexivity. Qed.

(** ** Resumable uploads: a chunk that is already there *)

Section DuplicateChunkFacts.
Import StreamHandler.



End DuplicateChunkFacts.


Definition upload_store_2 : store :=
  [Upload "u1" "alice" "p11-member-group" [(1, 3); (2, 3)]].



(** ** Resumable info: torn merges and discovery by file name *)

Section ResumableInfoFacts.
Import ResumablesHandler.


End ResumableInfoFacts.

(** *** Upload [u1] with chunks 1 and 2 recorded, and a merged file that
    disagrees with the store total of six bytes *)

Definition torn_disk (merged : bytes) : gmap name node :=
  <[Whole (UploadDir "u1") := Directory]>
  (<[Whole (Chunk "u1" "x.bin" 1) := Regular chunk_A]>
  (<[Whole (Chunk "u1" "x.bin" 2) := Regular chunk_B]>
  (<[Whole (MergedFile "x.bin" "u1") := Regular merged]> ∅))).
Definition resumable_info_query (id : option string) (dir_stat : string → Z * Z)
    (m : gmap name node) (s : store)
    : outcome (Z * option ResumablesHandler.resumable_info) * world :=
  ResumablesHandler.get (λ _, true) (λ _, "d41d8cd9") dir_stat "alice" (Some "x.bin") id
    (example_world m s no_faults).

(** A merged file that lost two bytes of chunk 2 is repaired by the query. *)
Example short_merged_file_is_repaired :
  let r := resumable_info_query (Some "u1") (λ _, (4096, 0))
             (torn_disk (chunk_A ++ [x42])) upload_store_2 in
  r.1 = Ret (200, Some (ResumablesHandler.ResumableInfo (Some "x.bin") "u1" (Some 3) (Some 2)
                          (Some "d41d8cd9") (Some 3) (ResumablesHandler.Offset (Some 6)) None
                          (Some "p11-member-group"))) ∧
  fs r.2 !! Whole (MergedFile "x.bin" "u1") = Some (Regular (chunk_A ++ chunk_B)).
Proof. split; vm_compute; reflexivity. Qed.

(** C3, at a failing input: chunk 2 was appended twice, so the merged file
    has nine bytes against a total of six. [repair_inconsistent_resumable]
    has no branch for a merged file larger than the total and returns
    nothing, unpacking that raises, and the query answers 200 with every
    field empty: ['next_offset'] is not ['end'] and there is no warning. The
    disk is left as it was. *)
Theorem oversized_merged_file_is_reported_without_recommendation :
  let r := resumable_info_query (Some "u1") (λ _, (4096, 0))
             (torn_disk (chunk_A ++ chunk_B ++ chunk_B)) upload_store_2 in
  r.1 = Ret (200, Some (ResumablesHandler.ResumableInfo None "u1" None None None None
                          (ResumablesHandler.Offset None) None (Some "p11-member-group"))) ∧
  (∀ i, r.1 = Ret (200, Some i) → ResumablesHandler.ri_next_offset i ≠ ResumablesHandler.OffsetEnd) ∧
  fs r.2 !! Whole (MergedFile "x.bin" "u1") = Some (Regular (chunk_A ++ chunk_B ++ chunk_B)).
Proof.
  split; [vm_compute; reflexivity|]. split; [|vm_compute; reflexivity].
  intros i Hi. vm_compute in Hi. by injection Hi as <-.
Qed.

(** *** Two uploads of [x.bin] by the same user: [u1] is the older one,
    [u2] the more recent *)

Definition two_uploads_disk : gmap name node :=
  <[Whole (UploadDir "u1") := Directory]>
  (<[Whole (Chunk "u1" "x.bin" 1) := Regular chunk_A]>
  (<[Whole (MergedFile "x.bin" "u1") := Regular chunk_A]>
  (<[Whole (UploadDir "u2") := Directory]>
  (<[Whole (Chunk "u2" "x.bin" 1) := Regular chunk_B]>
  (<[Whole (MergedFile "x.bin" "u2") := Regular chunk_B]> ∅))))).
Definition two_uploads_store : store :=
  [Upload "u1" "alice" "p11-member-group" [(1, 3)];
   Upload "u2" "alice" "p11-member-group" [(1, 3)]].
(** [os.stat] of the two upload directories as (st_size, st_mtime). *)
Definition dir_stat_of (u1 u2 : Z * Z) (id : string) : Z * Z :=
  if bool_decide (id = "u1") then u1 else u2.
Definition discover (dir_stat : string → Z * Z) : outcome (option string) :=
  (ResumablesHandler.find_relevant_resumable_dir (λ _, true) dir_stat "alice" "x.bin" None
     (example_world two_uploads_disk two_uploads_store no_faults)).1.

(** C4, at a failing input: both directories hold a first chunk of
    [x.bin]; [u2] has the later mtime (200 against 100). The candidates are
    paired with [st_size], not with the mtime, so the larger directory comes
    first, and among directories of the same size the one listed first by
    the store: the older upload [u1] is selected in both cases, and [u2]
    only once it is the larger one. *)
Theorem discovery_orders_candidates_by_directory_size :
  discover (dir_stat_of (8192, 100) (4096, 200)) = Ret (Some "u1") ∧
  discover (dir_stat_of (4096, 100) (4096, 200)) = Ret (Some "u1") ∧
  discover (dir_stat_of (4096, 100) (8192, 200)) = Ret (Some "u2").
Proof. repeat split; vm_compute; reflexivity. Qed.

(** * Further properties of the handlers *)

(** ** Downloads: what [get], [head] and the listing serve *)

Section ExportFacts.
Import Download.

Context {T : Type} (str : T → string) (md5_hexdigest : string → string).
Context (check_filename : string → option string) (magic_from_file : file T → string).
Context (export_chunk_size : Z) (export_policy : gmap string policy).
Context (default_policy : policy) (export_max_size : Z).
Context (export_max_num_list : Z) (isoformat : T → string).

Local Abbreviation get_file := (get str md5_hexdigest check_filename magic_from_file
  export_chunk_size export_policy default_policy export_max_size).
Local Abbreviation head_file := (head check_filename magic_from_file
  export_policy default_policy export_max_size).
Local Abbreviation policy_of := (enforce_export_policy check_filename magic_from_file
  export_policy default_policy export_max_size).
Local Abbreviation served_file := (served check_filename magic_from_file
  export_policy default_policy export_max_size).
Local Abbreviation list_dir := (list_files check_filename magic_from_file
  export_policy default_policy export_max_size export_max_num_list isoformat).

(** What the policy of a project asks of a file. *)
Definition conformant (p : policy) (f : file T) : Prop :=
  enabled p = false ∨
  (("*" ∈ allowed_mime_types p ∨ magic_from_file f ∈ allowed_mime_types p) ∧
   ∀ mx, max_size p = Some mx → mx = 0 ∨ st_size f ≤ mx).

Lemma enforce_export_policy_spec filename f pnum :
  let r := policy_of filename f pnum in
  (r.1.1.1 = true ↔
   is_Some (check_filename filename) ∧
   conformant (default default_policy (export_policy !! pnum)) f) ∧
  (r.1.1.1 = true → r.1.1.2 = Some (magic_from_file f) ∧ r.1.2 = Some (st_size f)) ∧
  (r.1.1.1 = false → is_Some r.2).
Proof.
  unfold enforce_export_policy, conformant.
  destruct (check_filename filename) as [secured|]; simpl.
  2: { repeat split; try done; eauto. by intros [[? ?] _]. }
  set (p := default default_policy (export_policy !! pnum)).
  destruct (enabled p) eqn:Hen; simpl.
  2: { repeat split; eauto. done. }
  destruct (bool_decide ("*" ∈ allowed_mime_types p)) eqn:Hstar;
    [apply bool_decide_eq_true in Hstar | apply bool_decide_eq_false in Hstar].
  - destruct (max_size p) as [mx|] eqn:Hmx; simpl.
    + destruct (mx =? 0) eqn:H0; simpl.
      * repeat split; eauto; try done. right. split; [by left|].
        intros ? [= <-]. left. lia.
      * destruct (st_size f >? mx) eqn:Hgt; simpl.
        -- repeat split; eauto; try done.
           intros [_ [?|[_ Hsz]]]; [done|]. destruct (Hsz mx eq_refl); lia.
        -- repeat split; eauto; try done. right. split; [by left|].
           intros ? [= <-]. right. lia.
    + repeat split; eauto; try done. right. split; [by left|]. done.
  - destruct (bool_decide (magic_from_file f ∈ allowed_mime_types p)) eqn:Hmime;
      [apply bool_decide_eq_true in Hmime | apply bool_decide_eq_false in Hmime].
    + destruct (max_size p) as [mx|] eqn:Hmx; simpl.
      * destruct (mx =? 0) eqn:H0; simpl.
        -- repeat split; eauto; try done. right. split; [by right|].
           intros ? [= <-]. left. lia.
        -- destruct (st_size f >? mx) eqn:Hgt; simpl.
           ++ repeat split; eauto; try done.
              intros [_ [?|[_ Hsz]]]; [done|]. destruct (Hsz mx eq_refl); lia.
           ++ repeat split; eauto; try done. right. split; [by right|].
              intros ? [= <-]. right. lia.
      * repeat split; eauto; try done. right. split; [by right|]. done.
    + assert (¬ (is_Some (Some secured) ∧
                 (true = false ∨
                  ("*" ∈ allowed_mime_types p ∨ magic_from_file f ∈ allowed_mime_types p) ∧
                  ∀ mx, max_size p = Some mx → mx = 0 ∨ st_size f ≤ mx))) as Hno.
      { intros [_ [?|[[?|?] _]]]; done. }
      destruct (max_size p) as [mx|] eqn:Hmx; simpl.
      * destruct (mx =? 0) eqn:H0; simpl; [|destruct (st_size f >? mx) eqn:Hgt; simpl].
        all: repeat split; eauto; try done.
      * repeat split; eauto; try done.
Qed.

(** A request that is served gets past every test before the [Range]
    header is looked at. *)
Lemma get_served_file dir rq f :
  served_file dir rq f →
  get_file dir rq = Some
    (match rq_range rq with
     | None =>
       let data := read (f_data f) 0 export_chunk_size in
       Response 200 (Some (magic_from_file f)) (Some (st_size f))
         (stream_all (loop_fuel (f_data f)) export_chunk_size (f_data f)
            (length data) data []) None
     | Some r =>
       get_range str md5_hexdigest export_chunk_size f (Some (magic_from_file f)) rq r
     end).
Proof.
  intros (user & filename & secured & Hauth & Hpnum & Hname & Hcheck & Hfile & Hpol).
  unfold get. rewrite Hauth, Hpnum, Hname, Hcheck, Hfile. simpl.
  destruct (enforce_export_policy_spec secured f (rq_pnum rq)) as (_ & Hok & _).
  destruct (policy_of secured f (rq_pnum rq)) as [[[ok mime] size] msg].
  simpl in *. subst ok. destruct (Hok eq_refl) as [-> ->]. simpl.
  by destruct (rq_range rq).
Qed.

Lemma take_length_take {A} (l : list A) (k : nat) :
  take (length (take k l)) l = take k l.
Proof.
  rewrite length_take. destruct (Nat.le_gt_cases k (length l)).
  - by rewrite Nat.min_l.
  - rewrite Nat.min_r, !take_ge by lia. done.
Qed.

(** The loop of the no-[Range] branch, for a positive chunk size: with the
    first [pos] bytes written and the next chunk read, it writes the rest. *)
Lemma stream_all_rest (data : bytes) (c : Z) :
  0 < c →
  ∀ fuel pos, (length data - pos < fuel)%nat →
    stream_all fuel c data (pos + length (read data pos c)) (read data pos c) (take pos data)
    = data.
Proof.
  intros Hc. induction fuel as [|fuel IH]; intros pos Hfuel; [lia|].
  rewrite read_at by lia. simpl.
  destruct (take (Z.to_nat c) (drop pos data)) as [|x cur] eqn:Hcur.
  - apply take_ge.
    apply (f_equal length) in Hcur. rewrite length_take, length_drop in Hcur.
    simpl in Hcur. lia.
  - rewrite <- Hcur.
    assert (take pos data ++ take (Z.to_nat c) (drop pos data)
            = take (pos + length (take (Z.to_nat c) (drop pos data))) data) as ->.
    { rewrite <- take_take_drop. f_equal. by rewrite take_length_take. }
    apply IH.
    apply (f_equal length) in Hcur. rewrite length_take, length_drop in Hcur.
    simpl in Hcur. rewrite length_take, length_drop. lia.
Qed.

(** The same loop for either sign of the chunk size: a negative size
    makes the first [read] return the whole file. *)
Lemma stream_all_whole (data : bytes) (c : Z) :
  c ≠ 0 →
  stream_all (loop_fuel data) c data (length (read data 0 c)) (read data 0 c) [] = data.
Proof.
  intros Hc. destruct (Z.lt_trichotomy c 0) as [Hneg|[?|Hpos]]; [|done|].
  - unfold read. destruct (c <? 0) eqn:?; [|lia]. rewrite drop_0. unfold loop_fuel.
    destruct data as [|x data]; [done|]. simpl.
    assert (read (x :: data) (S (length data)) c = []) as ->; [|done].
    unfold read. destruct (c <? 0) eqn:?; [|lia]. by rewrite drop_ge.
  - apply (stream_all_rest data c Hpos (loop_fuel data) 0%nat). unfold loop_fuel. lia.
Qed.

Lemma get_without_range_whole dir rq f :
  served_file dir rq f → rq_range rq = None → export_chunk_size ≠ 0 →
  get_file dir rq
  = Some (Response 200 (Some (magic_from_file f)) (Some (st_size f)) (f_data f) None).
Proof.
  intros Hserved Hrange Hc. rewrite (get_served_file dir rq f Hserved), Hrange.
  cbv zeta. by rewrite stream_all_whole.
Qed.

(** X1: a served file asked for without a [Range] header comes whole:
    status 200, [Content-Type] the detected MIME type, [Content-Length] the
    size of the file, and the body its bytes, whatever the (non-zero) chunk
    size the file is read in. *)
Theorem get_without_range_serves_whole_file dir rq f :
  served_file dir rq f → rq_range rq = None → export_chunk_size ≠ 0 →
  get_file dir rq
  = Some (Response 200 (Some (magic_from_file f)) (Some (st_size f)) (f_data f) None).
Proof.
  apply get_without_range_whole.
Qed.

(** X2: a range [a..b] inside a served file, no [If-Range]. With [n] the
    length of the range and [c] the chunk size used (the configured one, or
    [n] when that is smaller), [Content-Length] is [n] and the body is the
    first [c * (n / c)] bytes of the range: whole chunks only. *)
Theorem get_range_serves_whole_chunks_of_range dir rq f a b :
  served_file dir rq f →
  rq_range rq = Some (Range false (Some a) (Some b)) → rq_if_range rq = None →
  0 ≤ a → a ≤ b → b < st_size f → 0 < export_chunk_size →
  let n := b - a + 1 in
  let c := Z.min export_chunk_size n in
  get_file dir rq
  = Some (Response 200 (Some (magic_from_file f)) (Some n)
            (take (Z.to_nat (c * (n / c))) (drop (Z.to_nat a) (f_data f))) None).
Proof.
  intros Hserved Hrange Hif Ha Hab Hb Hc n c.
  rewrite (get_served_file dir rq f Hserved), Hrange.
  by rewrite get_range_sends_whole_chunks.
Qed.

(** X3: the same range is served in full exactly when it fits in one chunk
    or is a whole number of chunks long. *)
Theorem get_range_complete_iff_whole_chunks dir rq f a b :
  served_file dir rq f →
  rq_range rq = Some (Range false (Some a) (Some b)) → rq_if_range rq = None →
  0 ≤ a → a ≤ b → b < st_size f → 0 < export_chunk_size →
  let n := b - a + 1 in
  (∃ resp, get_file dir rq = Some resp ∧
           body resp = take (Z.to_nat n) (drop (Z.to_nat a) (f_data f)))
  ↔ (n ≤ export_chunk_size ∨ n mod export_chunk_size = 0).
Proof.
  intros Hserved Hrange Hif Ha Hab Hb Hc n.
  rewrite (get_served_file dir rq f Hserved), Hrange.
  rewrite get_range_sends_whole_chunks by done. fold n.
  set (c := Z.min export_chunk_size n).
  assert (0 < c) as Hcpos by (subst c n; lia).
  assert (c * (n / c) = n ↔ n ≤ export_chunk_size ∨ n mod export_chunk_size = 0) as Hiff.
  { pose proof (Z.div_mod n c ltac:(lia)) as Hdm.
    destruct (Z.le_gt_cases n export_chunk_size) as [Hle|Hgt].
    - assert (c = n) as Hcn by (subst c; lia). rewrite Hcn.
      rewrite Z.div_same by (subst n; lia). split; [auto|lia].
    - assert (c = export_chunk_size) as Hcc by (subst c; lia). rewrite Hcc in *.
      split; [intros ?; right; lia|intros [?|?]; lia]. }
  unfold st_size in Hb.
  split.
  - intros (resp & [= <-] & Hbody). simpl in Hbody. apply Hiff.
    apply (f_equal length) in Hbody. rewrite !length_take, length_drop in Hbody.
    pose proof (Z.mul_div_le n c Hcpos). assert (0 ≤ n / c) by (apply Z.div_pos; lia).
    subst n. nia.
  - intros Hn. eexists. split; [done|]. simpl. by rewrite (proj2 Hiff Hn).
Qed.

(** X4: a range request that is looked at (valid [If-Range] or none, one
    range, a start that parses) is refused with 416 exactly when its end
    (the last byte of the file when none is given) is larger than the size
    of the file; nothing of the file is sent then. An end equal to the size,
    one past the last byte, is let through. *)
Theorem get_range_is_416_iff_end_exceeds_size dir rq f r a :
  served_file dir rq f → rq_range rq = Some r →
  (∀ etag, rq_if_range rq = Some etag → Some etag = compute_etag str md5_hexdigest (Some f)) →
  multipart r = false → client_start r = Some a →
  let e := default (st_size f - 1) (client_end r) in
  ∃ resp, get_file dir rq = Some resp ∧
          (status resp = 416 ↔ e > st_size f) ∧
          (e > st_size f → body resp = [] ∧ content_length resp = None).
Proof.
  intros Hserved Hrange Hif Hmulti Hstart e.
  rewrite (get_served_file dir rq f Hserved), Hrange.
  eexists. split; [done|]. unfold get_range.
  assert (match rq_if_range rq with
          | Some provided_etag =>
            bool_decide (Some provided_etag ≠ compute_etag str md5_hexdigest (Some f))
          | None => false
          end = false) as ->.
  { destruct (rq_if_range rq) as [etag|]; [|done].
    apply bool_decide_eq_false. intros Hne. by apply Hne, Hif. }
  rewrite Hmulti, Hstart. cbv zeta. fold e.
  destruct (e >? st_size f) eqn:Hgt; simpl.
  - split; [split; [lia|done]|done].
  - split; [split; [done|lia]|lia].
Qed.


(** X6: [enforce_export_policy] accepts a file exactly when its name
    passes [check_filename] and the policy of the project (the default
    policy when the project has none) is disabled, or allows the MIME type
    (by name or by ["*"]) and sets no limit (none, or zero) below the size of
    the file. An accepted file comes with its MIME type and size, a refused
    one with a reason in [self.message]. *)
Theorem export_policy_accepts_conformant_files filename f pnum :
  let r := policy_of filename f pnum in
  (r.1.1.1 = true ↔
   is_Some (check_filename filename) ∧
   conformant (default default_policy (export_policy !! pnum)) f) ∧
  (r.1.1.1 = true → r.1.1.2 = Some (magic_from_file f) ∧ r.1.2 = Some (st_size f)) ∧
  (r.1.1.1 = false → is_Some r.2).
Proof. apply enforce_export_policy_spec. Qed.

(** X7: [get] writes bytes of a file only for a request that is served
    (valid token and project number, a name that passes [check_filename],
    a file there that the export policy accepts), and then with status
    200. *)
Theorem get_sends_bytes_only_when_served dir rq resp :
  get_file dir rq = Some resp → body resp ≠ [] →
  status resp = 200 ∧
  ∃ f, served check_filename magic_from_file export_policy default_policy export_max_size
         dir rq f.
Proof.
  unfold get.
  destruct (rq_authnz rq) as [user|] eqn:Hauth; [|by intros [= <-]].
  destruct (rq_pnum_valid rq) eqn:Hpnum; simpl; [|by intros [= <-]].
  destruct (rq_filename rq) as [filename|] eqn:Hname; [|done].
  destruct (check_filename filename) as [secured|] eqn:Hcheck; [|by intros [= <-]].
  destruct (dir !! secured) as [f|] eqn:Hfile; [|by intros [= <-]].
  destruct (policy_of secured f (rq_pnum rq)) as [[[ok mime] size] msg] eqn:Hpol.
  destruct ok; simpl; [|by intros [= <-]].
  intros Hresp Hbody. split.
  - destruct (rq_range rq) as [r|]; injection Hresp as <-; [|done].
    unfold get_range in *.
    repeat (match goal with
            | H : context [if ?b then _ else _] |- _ => destruct b
            | H : context [match ?o with Some _ => _ | None => _ end] |- _ => destruct o
            end; simpl in *; try done).
  - exists f, user, filename, secured. by rewrite Hpol.
Qed.

(** X8: [head] and [get] on the same file. When the policy accepts it,
    [head] answers 200 with [Accept-Ranges: bytes] and a [Content-Length]
    that is the length of the body [get] sends without a [Range] header.
    When the policy refuses it, [get] answers 400 without data, and [head]
    writes the message under status 200. *)
Theorem head_agrees_with_get_on_accepted_files dir rq user filename secured f :
  rq_authnz rq = Authorized user → rq_pnum_valid rq = true →
  rq_filename rq = Some filename → check_filename filename = Some secured →
  dir !! secured = Some f → rq_range rq = None → export_chunk_size ≠ 0 →
  if (policy_of secured f (rq_pnum rq)).1.1.1 then
    head_file dir rq = HeadResponse 200 (Some (st_size f)) (Some "bytes") false ∧
    ∃ resp, get_file dir rq = Some resp ∧ status resp = 200 ∧
            content_length resp = Some (st_size f) ∧
            Z.of_nat (length (body resp)) = st_size f
  else
    head_file dir rq = HeadResponse 200 None None true ∧
    ∃ resp, get_file dir rq = Some resp ∧ status resp = 400 ∧ body resp = [] ∧
            content_length resp = None.
Proof.
  intros Hauth Hpnum Hname Hcheck Hfile Hrange Hc.
  destruct (policy_of secured f (rq_pnum rq)).1.1.1 eqn:Hok.
  - assert (served_file dir rq f) as Hserved by (exists user, filename, secured; done).
    rewrite (get_without_range_whole dir rq f Hserved Hrange Hc).
    split; [|eexists; split; [done|]; done].
    unfold head. rewrite Hauth, Hpnum, Hname, Hcheck, Hfile. simpl.
    destruct (enforce_export_policy_spec secured f (rq_pnum rq)) as (_ & Hsize & _).
    destruct (policy_of secured f (rq_pnum rq)) as [[[ok mime] size] msg].
    simpl in *. subst ok. by destruct (Hsize eq_refl) as [_ ->].
  - unfold head, get. rewrite Hauth, Hpnum, Hname, Hcheck, Hfile. simpl.
    destruct (policy_of secured f (rq_pnum rq)) as [[[ok mime] size] msg].
    simpl in *. subst ok. simpl. split; [done|]. eexists. split; [done|]. done.
Qed.

(** The entry of the listing at the place of a file does not depend on
    what was listed before it, up to the message carried along. *)
Lemma list_entries_lookup pnum uri files : ∀ message i file e,
  files !! i = Some (file, e) →
  ∃ message', list_entries check_filename magic_from_file export_policy default_policy
                export_max_size isoformat pnum uri message files !! i
              = Some (list_entry check_filename magic_from_file export_policy default_policy
                        export_max_size isoformat pnum uri message' file e).1.
Proof.
  induction files as [|[file0 e0] files IH]; intros message i file e Hi; [done|].
  simpl.
  destruct (list_entry _ _ _ _ _ _ pnum uri message file0 e0) as [info message1] eqn:H0.
  destruct i as [|i]; simpl in *.
  - injection Hi as -> ->. exists message. by rewrite H0.
  - by apply IH.
Qed.

Lemma list_entries_names pnum uri files : ∀ message,
  fi_filename <$> list_entries check_filename magic_from_file export_policy default_policy
                    export_max_size isoformat pnum uri message files
  = files.*1.
Proof.
  induction files as [|[file0 e0] files IH]; intros message; [done|]. simpl.
  destruct (list_entry _ _ _ _ _ _ pnum uri message file0 e0) as [info message1] eqn:H0.
  simpl. rewrite IH. f_equal.
  unfold list_entry in H0. destruct e0.
  - destruct (policy_of file0 f pnum) as [[[ok mime] size] msg]. by injection H0 as <- <-.
  - by injection H0 as <- <-.
Qed.

(** X9: the listing and the download agree. [list_files] names the
    entries of the directory in order, and for a file whose name is its own
    checked name it says [exportable: true] exactly when [get] serves that
    file (200, the whole file, the listed size as [Content-Length]);
    otherwise it says [exportable: false] with the reason that [get] gives
    in its 400 answer. *)
Theorem listing_agrees_with_get files pnum uri msg0 infos dir rq user i file f owner :
  list_dir files pnum uri msg0 = inr infos →
  files !! i = Some (file, ListedFile f owner) →
  rq_authnz rq = Authorized user → rq_pnum_valid rq = true → rq_pnum rq = pnum →
  rq_filename rq = Some file → check_filename file = Some file →
  dir !! file = Some f → rq_range rq = None → export_chunk_size ≠ 0 →
  fi_filename <$> infos = files.*1 ∧
  ∃ info resp, infos !! i = Some info ∧ get_file dir rq = Some resp ∧
    (fi_exportable info = Some true ∧ fi_reason info = None ∧
     status resp = 200 ∧ body resp = f_data f ∧ content_length resp = fi_size info
     ∨
     fi_exportable info = Some false ∧ is_Some (fi_reason info) ∧
     status resp = 400 ∧ body resp = [] ∧ message resp = fi_reason info).
Proof.
  intros Hlist Hi Hauth Hpnum Hp Hname Hcheck Hfile Hrange Hc.
  unfold list_files in Hlist.
  destruct (Z.of_nat (length files) >? export_max_num_list); [done|].
  injection Hlist as <-. split; [apply list_entries_names|].
  destruct (list_entries_lookup pnum uri files msg0 i file _ Hi) as [message' ->].
  destruct (enforce_export_policy_spec file f pnum) as (_ & Hok & Hno).
  destruct (policy_of file f pnum).1.1.1 eqn:Hstatus.
  - assert (served_file dir rq f) as Hserved.
    { exists user, file, file. by rewrite Hp. }
    rewrite (get_without_range_whole dir rq f Hserved Hrange Hc).
    do 2 eexists. split; [done|]. split; [done|]. left.
    unfold list_entry.
    destruct (policy_of file f pnum) as [[[ok mime] size] msg].
    simpl in *. subst ok. by destruct (Hok eq_refl) as [_ ->].
  - unfold get. rewrite Hauth, Hpnum, Hname, Hcheck, Hfile, Hp. simpl.
    unfold list_entry.
    destruct (policy_of file f pnum) as [[[ok mime] size] msg].
    simpl in *. subst ok. destruct (Hno eq_refl) as [reason ->]. simpl.
    do 2 eexists. split; [done|]. split; [done|]. right. eauto 10.
Qed.

End ExportFacts.

(** *** Examples on the export directory that holds [hello.bin] *)

Definition example_request (range : option Download.range_header) (if_range : option string)
    : Download.request :=
  Download.Request (Download.Authorized "alice") "p11" true (Some "hello.bin") range if_range.

Lemma example_served range if_range :
  served Some (λ _ : Download.file Z, "application/octet-stream") ∅
    (Download.Policy false [] None) 0 {["hello.bin" := example_file 200]}
    (example_request range if_range) (example_file 200).
Proof. exists "alice", "hello.bin", "hello.bin". repeat split; reflexivity. Qed.

Lemma get_without_range_serves_whole_file_witness :
  example_export 200 (example_request None None)
  = Some (Download.Response 200 (Some "application/octet-stream")
            (Some (Download.st_size (example_file 200)))
            (Download.f_data (example_file 200)) None).
Proof.
  apply (get_without_range_serves_whole_file pretty example_digest Some
           (λ _, "application/octet-stream") 4 ∅ (Download.Policy false [] None) 0
           {["hello.bin" := example_file 200]} (example_request None None) (example_file 200)).
  - apply example_served.
  - reflexivity.
  - lia.
Defined.

Lemma get_range_serves_whole_chunks_of_range_witness :
  let n := 5 - 0 + 1 in
  let c := Z.min 4 n in
  example_export 200 (example_request (Some (Download.Range false (Some 0) (Some 5))) None)
  = Some (Download.Response 200 (Some "application/octet-stream") (Some n)
            (take (Z.to_nat (c * (n / c)))
               (drop (Z.to_nat 0) (Download.f_data (example_file 200)))) None).
Proof.
  apply (get_range_serves_whole_chunks_of_range pretty example_digest Some
           (λ _, "application/octet-stream") 4 ∅ (Download.Policy false [] None) 0
           {["hello.bin" := example_file 200]}
           (example_request (Some (Download.Range false (Some 0) (Some 5))) None)
           (example_file 200) 0 5).
  - apply example_served.
  - reflexivity.
  - reflexivity.
  - lia.
  - lia.
  - vm_compute. reflexivity.
  - lia.
Defined.

Lemma get_range_complete_iff_whole_chunks_witness :
  let n := 5 - 0 + 1 in
  (∃ resp,
     example_export 200 (example_request (Some (Download.Range false (Some 0) (Some 5))) None)
     = Some resp ∧
     Download.body resp
     = take (Z.to_nat n) (drop (Z.to_nat 0) (Download.f_data (example_file 200))))
  ↔ (n ≤ 4 ∨ n mod 4 = 0).
Proof.
  apply (get_range_complete_iff_whole_chunks pretty example_digest Some
           (λ _, "application/octet-stream") 4 ∅ (Download.Policy false [] None) 0
           {["hello.bin" := example_file 200]}
           (example_request (Some (Download.Range false (Some 0) (Some 5))) None)
           (example_file 200) 0 5).
  - apply example_served.
  - reflexivity.
  - reflexivity.
  - lia.
  - lia.
  - vm_compute. reflexivity.
  - lia.
Defined.

Lemma get_range_is_416_iff_end_exceeds_size_witness :
  let e := default (Download.st_size (example_file 200) - 1)
             (Download.client_end (Download.Range false (Some 0) (Some 9))) in
  ∃ resp,
    example_export 200 (example_request (Some (Download.Range false (Some 0) (Some 9))) None)
    = Some resp ∧
    (Download.status resp = 416 ↔ e > Download.st_size (example_file 200)) ∧
    (e > Download.st_size (example_file 200) →
     Download.body resp = [] ∧ Download.content_length resp = None).
Proof.
  apply (get_range_is_416_iff_end_exceeds_size pretty example_digest Some
           (λ _, "application/octet-stream") 4 ∅ (Download.Policy false [] None) 0
           {["hello.bin" := example_file 200]}
           (example_request (Some (Download.Range false (Some 0) (Some 9))) None)
           (example_file 200) (Download.Range false (Some 0) (Some 9)) 0).
  - apply example_served.
  - reflexivity.
  - intros etag. discriminate.
  - reflexivity.
  - reflexivity.
Defined.


Lemma get_sends_bytes_only_when_served_witness :
  Download.status
    (Download.Response 200 (Some "application/octet-stream") (Some 6)
       [x00; x01; x02; x03; x04; x05] None) = 200 ∧
  ∃ f, served Some (λ _ : Download.file Z, "application/octet-stream") ∅
         (Download.Policy false [] None) 0 {["hello.bin" := example_file 200]}
         (example_request None None) f.
Proof.
  apply (get_sends_bytes_only_when_served pretty example_digest Some
           (λ _, "application/octet-stream") 4 ∅ (Download.Policy false [] None) 0
           {["hello.bin" := example_file 200]} (example_request None None)).
  - reflexivity.
  - discriminate.
Defined.

Lemma head_agrees_with_get_on_accepted_files_witness :
  if (Download.enforce_export_policy Some (λ _ : Download.file Z, "application/octet-stream")
        ∅ (Download.Policy false [] None) 0 "hello.bin" (example_file 200)
        (Download.rq_pnum (example_request None None))).1.1.1
  then
    Download.head Some (λ _, "application/octet-stream") ∅ (Download.Policy false [] None) 0
      {["hello.bin" := example_file 200]} (example_request None None)
    = Download.HeadResponse 200 (Some (Download.st_size (example_file 200))) (Some "bytes") false ∧
    ∃ resp, example_export 200 (example_request None None) = Some resp ∧
            Download.status resp = 200 ∧
            Download.content_length resp = Some (Download.st_size (example_file 200)) ∧
            Z.of_nat (length (Download.body resp)) = Download.st_size (example_file 200)
  else
    Download.head Some (λ _, "application/octet-stream") ∅ (Download.Policy false [] None) 0
      {["hello.bin" := example_file 200]} (example_request None None)
    = Download.HeadResponse 200 None None true ∧
    ∃ resp, example_export 200 (example_request None None) = Some resp ∧
            Download.status resp = 400 ∧ Download.body resp = [] ∧
            Download.content_length resp = None.
Proof.
  apply (head_agrees_with_get_on_accepted_files pretty example_digest Some
           (λ _, "application/octet-stream") 4 ∅ (Download.Policy false [] None) 0
           {["hello.bin" := example_file 200]} (example_request None None)
           "alice" "hello.bin" "hello.bin" (example_file 200)).
  all: try reflexivity.
  lia.
Defined.

Lemma listing_agrees_with_get_witness :
  let files := [("hello.bin", Download.ListedFile (example_file 200) "alice")] in
  ∃ infos,
    Download.list_files Some (λ _ : Download.file Z, "application/octet-stream") ∅
      (Download.Policy false [] None) 0 10 pretty files "p11" "/v1/p11/files/export"
      Download.msg_unknown = inr infos ∧
    Download.fi_filename <$> infos = files.*1 ∧
    ∃ info resp, infos !! 0%nat = Some info ∧
      example_export 200 (example_request None None) = Some resp ∧
      (Download.fi_exportable info = Some true ∧ Download.fi_reason info = None ∧
       Download.status resp = 200 ∧
       Download.body resp = Download.f_data (example_file 200) ∧
       Download.content_length resp = Download.fi_size info
       ∨
       Download.fi_exportable info = Some false ∧ is_Some (Download.fi_reason info) ∧
       Download.status resp = 400 ∧ Download.body resp = [] ∧
       Download.message resp = Download.fi_reason info).
Proof.
  intros files. eexists. split; [reflexivity|].
  apply (listing_agrees_with_get pretty example_digest Some
           (λ _, "application/octet-stream") 4 ∅ (Download.Policy false [] None) 0 10 pretty
           files "p11" "/v1/p11/files/export" Download.msg_unknown _
           {["hello.bin" := example_file 200]} (example_request None None)
           "alice" 0%nat "hello.bin" (example_file 200) "alice").
  all: try reflexivity.
  lia.
Defined.

(** ** The token check of [AuthRequestHandler] *)

Section TokenFacts.
Import AuthRequestHandler.

Context {secret : Type} (use_secret_store : bool) (options_secret : option secret).
Context (secret_store : gmap string secret) (valid_pnum : string → bool).
Context (verify_json_web_token : string → secret → list string → string → option authnz).

Local Abbreviation validate := (validate_token use_secret_store options_secret secret_store
  valid_pnum verify_json_web_token).

(** What it takes for [validate_token] to return [a]. *)
Definition verified (rq : request) (roles_allowed : list string) (a : authnz) : Prop :=
  ∃ auth_header token pnum key c u,
    authorization rq = Some auth_header ∧
    split_on " " auth_header !! 1%nat = Some token ∧
    use_secret_store = true ∧
    uri_pnum rq = Some pnum ∧ valid_pnum pnum = true ∧
    secret_store !! pnum = Some key ∧
    verify_json_web_token auth_header key roles_allowed pnum = Some a ∧
    a_claims a = Some c ∧ c_user c = Some u ∧ a_status a = true.

(** X10: [validate_token] returns the dictionary of
    [verify_json_web_token] exactly when the [Authorization] header has a
    second word, the secret store is in use and holds a key for the valid
    project number of the URI, and the verification of the header with that
    key says [status: true] with a user among the claims; it then leaves the
    status alone and sets [self.user] to that user. In every other case it
    raises with the status set to 401, also where 400 or 500 was set on the
    way. *)
Theorem validate_token_returns_iff_verified rq roles_allowed h :
  let r := validate rq roles_allowed h in
  (∀ a, r.1 = Some a ↔ verified rq roles_allowed a) ∧
  (r.1 = None → status_code r.2 = 401) ∧
  (∀ a, r.1 = Some a →
        status_code r.2 = status_code h ∧ message r.2 = message h ∧
        user r.2 = a_claims a ≫= c_user).
Proof.
  unfold validate_token, verified, unauthorized.
  destruct (authorization rq) as [auth_header|] eqn:Hauth; simpl.
  2: { split; [|done]. intros a. split; [done|]. by intros (? & ? & ? & ? & ? & ? & ? & _). }
  destruct (split_on " " auth_header !! 1%nat) as [token|] eqn:Hsplit; simpl.
  2: { split; [|done]. intros a. split; [done|].
       intros (? & ? & ? & ? & ? & ? & [= <-] & ? & _). congruence. }
  destruct use_secret_store eqn:Hstore; simpl.
  2: { destruct options_secret; simpl; (split; [|done]); intros a; (split; [done|]);
         by intros (? & ? & ? & ? & ? & ? & _ & _ & ? & _). }
  destruct (uri_pnum rq) as [pnum|] eqn:Hpnum; simpl.
  2: { split; [|done]. intros a. split; [done|].
       by intros (? & ? & ? & ? & ? & ? & _ & _ & _ & ? & _). }
  destruct (valid_pnum pnum) eqn:Hvalid; simpl.
  2: { split; [|done]. intros a. split; [done|].
       intros (? & ? & ? & ? & ? & ? & _ & _ & _ & [= <-] & ? & _). congruence. }
  destruct (secret_store !! pnum) as [key|] eqn:Hkey; simpl.
  2: { split; [|done]. intros a. split; [done|].
       intros (? & ? & ? & ? & ? & ? & _ & _ & _ & [= <-] & _ & ? & _). congruence. }
  destruct (verify_json_web_token auth_header key roles_allowed pnum) as [authnz|] eqn:Hverify.
  2: { split; [|done]. intros a. split; [done|].
       intros (? & ? & ? & ? & ? & ? & [= <-] & _ & _ & [= <-] & _ & ? & ? & _). congruence. }
  assert (∀ a, (∃ auth_header0 token0 pnum0 key0 c u,
                  Some auth_header = Some auth_header0 ∧
                  split_on " " auth_header0 !! 1%nat = Some token0 ∧
                  true = true ∧ Some pnum = Some pnum0 ∧ valid_pnum pnum0 = true ∧
                  secret_store !! pnum0 = Some key0 ∧
                  verify_json_web_token auth_header0 key0 roles_allowed pnum0 = Some a ∧
                  a_claims a = Some c ∧ c_user c = Some u ∧ a_status a = true)
               ↔ a = authnz ∧ ∃ c u, a_claims a = Some c ∧ c_user c = Some u ∧
                                     a_status a = true) as Hiff.
  { intros a. split.
    - intros (? & ? & ? & ? & c & u & [= <-] & _ & _ & [= <-] & _ & ? & ? & ? & ? & ?).
      split; [congruence|eauto].
    - intros (-> & c & u & ? & ? & ?). exists auth_header, token, pnum, key, c, u. done. }
  destruct (a_claims authnz) as [c|] eqn:Hclaims.
  2: { destruct (a_reason authnz); simpl; (split; [|done]); intros a; rewrite Hiff;
         (split; [done|]); intros (-> & ? & ? & ? & _); congruence. }
  destruct (c_user c) as [u|] eqn:Huser.
  2: { destruct (a_reason authnz); simpl; (split; [|done]); intros a; rewrite Hiff;
         (split; [done|]); intros (-> & ? & ? & ? & ? & _); congruence. }
  destruct (a_status authnz) eqn:Hstatus.
  2: { destruct (a_reason authnz); simpl; (split; [|done]); intros a; rewrite Hiff;
         (split; [done|]); intros (-> & ? & ? & ? & ? & ?); congruence. }
  simpl. split; [|split; [done|]].
  - intros a. rewrite Hiff. split.
    + intros [= <-]. eauto 10.
    + by intros [-> _].
  - intros a [= <-]. by rewrite Hclaims.
Qed.

End TokenFacts.

(** ** [StreamHandler]: requests that fail, are cut off or carry no body *)

Section StreamFacts.
Import StreamHandler.








End StreamFacts.

(** *** Examples: uploads of [hello.bin] *)







(** ** Resumable uploads: what a chunk leaves behind *)

Section SequenceFacts.
Import StreamHandler.










End SequenceFacts.

(** ** Resumable uploads: the first chunk *)

Section FirstChunkFacts.
Import StreamHandler.





End FirstChunkFacts.

(** ** Resumable uploads: the end request *)

Section EndFacts.
Import StreamHandler.









End EndFacts.

(** ** Resumable uploads: merges that fail *)

Section MergeFailureFacts.
Import StreamHandler.






End MergeFailureFacts.

(** *** Examples: the resumable upload [u1] of [x.bin] *)








(** ** The proxy and the form handler *)

Section ProxyFacts.
Import ProxyHandler.

Context (check_filename : string → option string) (is_valid_groupname : string → bool).


End ProxyFacts.

Section FormFacts.
Import FormDataHandler.

(** The disk after one file of a form was written. *)
Definition store_file (mode : filemode) (m : gmap name node) (file : form_file)
    : gmap name node :=
  match ff_filename file with
  | Some f => <[Whole (Target f) := Regular (kept m f mode ++ ff_body file)]> m
  | None => m
  end.

(** A file of a form that can be written on disk [m]: its name passes
    [check_filename], its body is not empty, the partial name drawn for it
    is free, and there is no directory at its name. *)
Definition writable (m : gmap name node) (file : form_file) : Prop :=
  ∃ f, ff_filename file = Some f ∧ ff_body file ≠ [] ∧
       m !! Part (Target f) (ff_uuid file) = None ∧
       m !! Whole (Target f) ≠ Some Directory.

Lemma writable_after mode m file file' :
  writable m file' → writable (store_file mode m file) file'.
Proof.
  intros (f' & Hname & Hbody & Hpart & Hdir). exists f'.
  split; [done|]. split; [done|]. unfold store_file.
  destruct (ff_filename file) as [f|]; [|done].
  split; [by rewrite lookup_insert_ne|].
  destruct (decide (f = f')) as [->|Hne].
  - by rewrite lookup_insert_eq.
  - rewrite lookup_insert_ne; [done|]. intros [=]. done.
Qed.

Lemma write_file_ok mode f body u w :
  fs w !! Part (Target f) u = None →
  fs w !! Whole (Target f) ≠ Some Directory →
  ∃ h', write_file mode f body u w
        = (Ret true,
           World (<[Whole (Target f) := Regular (kept (fs w) f mode ++ body)]> (fs w))
             (db w) h' (env w) (writes_done w)) ∧
        status_code h' = status_code (self w) ∧ written h' = written (self w) ∧
        finished h' = finished (self w).
Proof.
  intros Hfresh Hdir. destruct w as [m s h e n]. simpl in *.
  exists (self (set_paths (Some (Part (Target f) u)) (Some (Whole (Target f)))
                  (World m s h e n)).2).
  split; [|by destruct h].
  unfold write_file, kept. run.
  destruct (m !! Whole (Target f)) as [[old|]|] eqn:Hp; [|done|];
    destruct mode; repeat (simpl; rewrite ?Hfresh, ?Hp; disk_facts m).
  all: do 2 f_equal; same_disk (Whole (Target f)) (Part (Target f) u).
Qed.

Lemma write_each_cons mode file files w :
  write_each mode (file :: files) w
  = match ff_filename file with
    | None => (Raise (Exception ""), w)
    | Some f =>
      if bool_decide (ff_body file = []) then (Raise (Exception "EmptyFileBodyError"), w)
      else match write_file mode f (ff_body file) (ff_uuid file) w with
           | (Ret true, w1) => write_each mode files w1
           | (Ret false, w1) => (Raise AssertionError, w1)
           | (Raise e, w1) => (Raise e, w1)
           end
    end.
Proof.
  simpl. unfold bind, the, ret, raise, assert.
  destruct (ff_filename file); [|done].
  case_bool_decide; [done|].
  by destruct (write_file _ _ _ _ _) as [[[]|] ?].
Qed.

Lemma write_each_good mode files : ∀ w,
  Forall (writable (fs w)) files →
  ∃ h', write_each mode files w
        = (Ret tt, World (foldl (store_file mode) (fs w) files) (db w) h' (env w)
                     (writes_done w)) ∧
        status_code h' = status_code (self w) ∧ written h' = written (self w) ∧
        finished h' = finished (self w).
Proof.
  induction files as [|file files IH]; intros w Hfiles.
  - exists (self w). by destruct w.
  - apply Forall_cons in Hfiles as [(f & Hname & Hbody & Hpart & Hdir) Hrest].
    destruct (write_file_ok mode f (ff_body file) (ff_uuid file) w Hpart Hdir)
      as (h1 & Hwrite & Hst & Hwr & Hfin).
    rewrite write_each_cons, Hname, bool_decide_false, Hwrite by done.
    set (w1 := World _ _ h1 _ _).
    destruct (IH w1) as (h' & Heach & Hst' & Hwr' & Hfin').
    { eapply Forall_impl; [exact Hrest|]. intros file' Hfile'.
      pose proof (writable_after mode (fs w) file file' Hfile') as Hafter.
      unfold store_file in Hafter. by rewrite Hname in Hafter. }
    exists h'. rewrite Heach. subst w1. simpl in *.
    split; [|by rewrite Hst', Hwr', Hfin'].
    assert (store_file mode (fs w) file
            = <[Whole (Target f) := Regular (kept (fs w) f mode ++ ff_body file)]> (fs w))
      as Hsf by (unfold store_file; by rewrite Hname).
    by rewrite Hsf.
Qed.

Lemma write_each_bad mode good bad rest : ∀ w,
  Forall (writable (fs w)) good →
  ff_filename bad = None ∨ ff_body bad = [] →
  ∃ e h', write_each mode (good ++ bad :: rest) w
          = (Raise e, World (foldl (store_file mode) (fs w) good) (db w) h' (env w)
                        (writes_done w)) ∧
          status_code h' = status_code (self w) ∧ written h' = written (self w) ∧
          finished h' = finished (self w).
Proof.
  induction good as [|file good IH]; intros w Hgood Hbad.
  - rewrite app_nil_l, write_each_cons.
    destruct (ff_filename bad) as [f|] eqn:Hname.
    + destruct Hbad as [?|Hbody]; [done|]. rewrite bool_decide_true by done.
      destruct w. simpl. eauto 10.
    + destruct w. simpl. eauto 10.
  - apply Forall_cons in Hgood as [(f & Hname & Hbody & Hpart & Hdir) Hrest].
    destruct (write_file_ok mode f (ff_body file) (ff_uuid file) w Hpart Hdir)
      as (h1 & Hwrite & Hst & Hwr & Hfin).
    rewrite <- app_comm_cons.
    rewrite write_each_cons, Hname, bool_decide_false, Hwrite by done.
    set (w1 := World _ _ h1 _ _).
    destruct (IH w1) as (e & h' & Heach & Hst' & Hwr' & Hfin'); [|done|].
    { eapply Forall_impl; [exact Hrest|]. intros file' Hfile'.
      pose proof (writable_after mode (fs w) file file' Hfile') as Hafter.
      unfold store_file in Hafter. by rewrite Hname in Hafter. }
    exists e, h'. rewrite Heach. subst w1. simpl in *.
    split; [|by rewrite Hst', Hwr', Hfin'].
    assert (store_file mode (fs w) file
            = <[Whole (Target f) := Regular (kept (fs w) f mode ++ ff_body file)]> (fs w))
      as Hsf by (unfold store_file; by rewrite Hname).
    by rewrite Hsf.
Qed.

Lemma handle_data_good mode files w :
  Forall (writable (fs w)) files →
  ∃ w', handle_data mode files w = (Ret tt, w') ∧
        status_code (self w') = 201 ∧
        written (self w') = written (self w) ++ [JMessage "data uploaded"] ∧
        fs w' = foldl (store_file mode) (fs w) files ∧ db w' = db w.
Proof.
  intros Hfiles.
  destruct (write_each_good mode files w Hfiles) as (h' & Heach & Hst & Hwr & Hfin).
  unfold handle_data, write_files.
  unfold try_except at 1. unfold bind at 1. unfold try_except at 1. unfold bind at 1.
  rewrite Heach. destruct h'. simpl in *. run. eexists. split; [done|]. simpl.
  by rewrite Hwr.
Qed.

Lemma handle_data_bad mode good bad rest w :
  Forall (writable (fs w)) good →
  ff_filename bad = None ∨ ff_body bad = [] →
  ∃ w', handle_data mode (good ++ bad :: rest) w = (Ret tt, w') ∧
        status_code (self w') = 400 ∧
        written (self w') = written (self w) ++ [JMessage "could not upload data"] ∧
        fs w' = foldl (store_file mode) (fs w) good ∧ db w' = db w.
Proof.
  intros Hgood Hbad.
  destruct (write_each_bad mode good bad rest w Hgood Hbad)
    as (e & h' & Heach & Hst & Hwr & Hfin).
  unfold handle_data, write_files.
  unfold try_except at 1. unfold bind at 1. unfold try_except at 1. unfold bind at 1.
  rewrite Heach. destruct h'. simpl in *. run. eexists. split; [done|]. simpl.
  by rewrite Hwr.
Qed.

(** The open mode of each method of [FormDataHandler]. *)
Definition form_mode (m : method) : option filemode :=
  match m with POST | PATCH => Some ab_plus | PUT => Some wb_plus | HEAD => None end.

Lemma serve_form m mode files w :
  form_mode m = Some mode → self w = fresh_handler → files ≠ [] →
  serve m true (Some files) w
  = (StreamHandler.reply_of (handle_data mode files w).2, (handle_data mode files w).2).
Proof.
  intros Hmode Hself Hfiles. destruct w as [fs0 s h e n]. simpl in *. subst h.
  unfold serve, prepare. run.
  destruct files as [|file files]; [done|]. simpl.
  destruct m; simpl in Hmode; try done; by injection Hmode as <-.
Qed.

(** X22: a form upload with a valid token whose files can all be written
    is answered 201 with [data uploaded]; the files are written one after
    the other, each at its own name, after the old bytes for POST and PATCH
    and in place of them for PUT, and a name that occurs twice is written
    twice. The store and every other path are left alone. *)
Theorem form_upload_writes_files_in_order m mode files w :
  form_mode m = Some mode → self w = fresh_handler → files ≠ [] →
  Forall (writable (fs w)) files →
  ∃ w', serve m true (Some files) w
        = (StreamHandler.Reply 201 [JMessage "data uploaded"], w') ∧
        fs w' = foldl (store_file mode) (fs w) files ∧ db w' = db w.
Proof.
  intros Hmode Hself Hne Hfiles. rewrite (serve_form m mode) by done.
  destruct (handle_data_good mode files w Hfiles) as (w' & -> & Hst & Hwr & Hfs & Hdb).
  exists w'. split; [|done]. simpl. unfold StreamHandler.reply_of.
  by rewrite Hst, Hwr, Hself.
Qed.

(** X23: how a form upload fails. A request with a bad token is answered
    401, one without files 400, both with [request failed] and nothing
    written. Past that, the upload is not all or nothing: at the first file
    with an empty body, or with a name that [check_filename] refuses, the
    handler stops and answers 400 with [could not upload data]; the files
    before that one are on disk as if the upload had worked, the files
    after it are not looked at. *)
Theorem form_upload_stops_at_first_bad_file m mode good bad rest w :
  form_mode m = Some mode → self w = fresh_handler →
  Forall (writable (fs w)) good →
  ff_filename bad = None ∨ ff_body bad = [] →
  (∃ w', serve m true (Some (good ++ bad :: rest)) w
         = (StreamHandler.Reply 400 [JMessage "could not upload data"], w') ∧
         fs w' = foldl (store_file mode) (fs w) good ∧ db w' = db w) ∧
  (∀ files, ∃ w', serve m false files w
                  = (StreamHandler.Reply 401 [JMessage "request failed"], w') ∧
                  fs w' = fs w ∧ db w' = db w) ∧
  (∀ files, files = None ∨ files = Some [] →
            ∃ w', serve m true files w
                  = (StreamHandler.Reply 400 [JMessage "request failed"], w') ∧
                  fs w' = fs w ∧ db w' = db w).
Proof.
  intros Hmode Hself Hgood Hbad. split; [|split].
  - rewrite (serve_form m mode) by (done || by destruct good).
    destruct (handle_data_bad mode good bad rest w Hgood Hbad)
      as (w' & -> & Hst & Hwr & Hfs & Hdb).
    exists w'. split; [|done]. simpl. unfold StreamHandler.reply_of.
    by rewrite Hst, Hwr, Hself.
  - intros files. destruct w as [fs0 s h e n]. simpl in *. subst h.
    unfold serve, prepare. run. eauto.
  - intros files Hfiles. destruct w as [fs0 s h e n]. simpl in *. subst h.
    unfold serve, prepare. run. destruct Hfiles as [-> | ->]; simpl; eauto.
Qed.

End FormFacts.

(** *** Examples: form uploads over [hello.bin] *)

Definition example_form : list FormDataHandler.form_file :=
  [FormDataHandler.FormFile (Some "hello.bin") new_bytes "77aa"].

Lemma example_form_writable : Forall (writable example_disk) example_form.
Proof.
  repeat constructor. exists "hello.bin". repeat split; done.
Qed.

Lemma form_upload_writes_files_in_order_witness :
  let w := example_world example_disk [] no_faults in
  ∃ w', FormDataHandler.serve PUT true (Some example_form) w
        = (StreamHandler.Reply 201 [JMessage "data uploaded"], w') ∧
        fs w' = foldl (store_file wb_plus) (fs w) example_form ∧ db w' = db w.
Proof.
  apply (form_upload_writes_files_in_order PUT wb_plus example_form
           (example_world example_disk [] no_faults)).
  - reflexivity.
  - reflexivity.
  - discriminate.
  - apply example_form_writable.
Defined.

Lemma form_upload_stops_at_first_bad_file_witness :
  let w := example_world example_disk [] no_faults in
  let bad := FormDataHandler.FormFile (Some "empty.bin") [] "77ab" in
  (∃ w', FormDataHandler.serve PUT true (Some (example_form ++ bad :: [])) w
         = (StreamHandler.Reply 400 [JMessage "could not upload data"], w') ∧
         fs w' = foldl (store_file wb_plus) (fs w) example_form ∧ db w' = db w) ∧
  (∀ files, ∃ w', FormDataHandler.serve PUT false files w
                  = (StreamHandler.Reply 401 [JMessage "request failed"], w') ∧
                  fs w' = fs w ∧ db w' = db w) ∧
  (∀ files, files = None ∨ files = Some [] →
            ∃ w', FormDataHandler.serve PUT true files w
                  = (StreamHandler.Reply 400 [JMessage "request failed"], w') ∧
                  fs w' = fs w ∧ db w' = db w).
Proof.
  apply (form_upload_stops_at_first_bad_file PUT wb_plus example_form
           (FormDataHandler.FormFile (Some "empty.bin") [] "77ab") []
           (example_world example_disk [] no_faults)).
  - reflexivity.
  - reflexivity.
  - apply example_form_writable.
  - right. reflexivity.
Defined.

(** ** [ResumablesHandler]: discovery and reports *)

Section SortFacts.
Import ResumablesHandler.

(** Larger keys first. *)
Definition key_ge (a b : Z * string) : Prop := b.1 ≤ a.1.

Lemma resumables_cmp_lt a b : (resumables_cmp a b <? 0) = true ↔ b.1 < a.1.
Proof.
  unfold resumables_cmp.
  destruct (a.1 >? b.1) eqn:Hgt; [split; [lia|done]|].
  destruct (a.1 <? b.1); split; (done || lia).
Qed.

Lemma insert_cmp_perm {A} (cmp : A → A → Z) x l : insert_cmp cmp x l ≡ₚ x :: l.
Proof.
  induction l as [|y l IH]; [done|]. simpl.
  destruct (cmp x y <? 0); [done|]. rewrite IH. apply Permutation_swap.
Qed.

Lemma sort_cmp_perm {A} (cmp : A → A → Z) l : sort_cmp cmp l ≡ₚ l.
Proof.
  unfold sort_cmp.
  assert (∀ acc, foldl (λ acc x, insert_cmp cmp x acc) acc l ≡ₚ acc ++ l) as H.
  { induction l as [|x l IH]; intros acc; simpl; [by rewrite app_nil_r|].
    rewrite IH, insert_cmp_perm. simpl. apply Permutation_middle. }
  apply (H []).
Qed.

Lemma insert_cmp_sorted x l :
  StronglySorted key_ge l → StronglySorted key_ge (insert_cmp resumables_cmp x l).
Proof.
  induction 1 as [|y l Hl IH Hy]; simpl; [repeat constructor|].
  destruct (resumables_cmp x y <? 0) eqn:Hlt.
  - apply resumables_cmp_lt in Hlt. constructor; [by constructor|].
    constructor; [unfold key_ge; lia|].
    eapply Forall_impl; [exact Hy|]. unfold key_ge. intros z. simpl. lia.
  - constructor; [done|]. rewrite insert_cmp_perm. constructor; [|done].
    unfold key_ge. destruct (Z.lt_ge_cases y.1 x.1) as [Hc|Hc]; [|lia].
    apply resumables_cmp_lt in Hc. congruence.
Qed.

Lemma filter_none {A} (P : A → Prop) `{!∀ x, Decision (P x)} (l : list A) :
  Forall (λ x, ¬ P x) l → filter P l = [].
Proof. induction 1; [done|]. by rewrite filter_cons_False. Qed.

Lemma insert_cmp_filter t x l :
  StronglySorted key_ge l →
  filter (λ p, p.1 = t) (insert_cmp resumables_cmp x l)
  = filter (λ p, p.1 = t) l ++ filter (λ p, p.1 = t) [x].
Proof.
  induction 1 as [|y l Hl IH Hy]; [by rewrite app_nil_l|]. simpl.
  destruct (resumables_cmp x y <? 0) eqn:Hlt.
  - apply resumables_cmp_lt in Hlt.
    rewrite (filter_cons _ x). rewrite (filter_cons _ x []).
    case_decide as Hx; [|by rewrite filter_nil, app_nil_r].
    assert (filter (λ p, p.1 = t) (y :: l) = []) as ->; [|done].
    apply filter_none. apply Forall_cons. split; [lia|].
    eapply Forall_impl; [exact Hy|]. unfold key_ge. intros z. simpl. lia.
  - rewrite !(filter_cons _ y), IH. by case_decide.
Qed.

(** X24: the order in which [find_relevant_resumable_dir] tries its
    candidates. The sort with [resumables_cmp] keeps every candidate, puts
    larger keys first, and leaves candidates with the same key in the order
    they had: the comparison never answers 0, and it answers 1 for a tie. *)
Theorem candidates_sorted_by_decreasing_key (l : list (Z * string)) :
  sort_cmp resumables_cmp l ≡ₚ l ∧
  StronglySorted key_ge (sort_cmp resumables_cmp l) ∧
  (∀ t, filter (λ p, p.1 = t) (sort_cmp resumables_cmp l) = filter (λ p, p.1 = t) l) ∧
  (∀ a b, resumables_cmp a b ≠ 0 ∧ (a.1 = b.1 → resumables_cmp a b = 1)).
Proof.
  split; [apply sort_cmp_perm|]. unfold sort_cmp.
  assert (∀ acc, StronglySorted key_ge acc →
            StronglySorted key_ge (foldl (λ acc x, insert_cmp resumables_cmp x acc) acc l) ∧
            ∀ t, filter (λ p, p.1 = t) (foldl (λ acc x, insert_cmp resumables_cmp x acc) acc l)
                 = filter (λ p, p.1 = t) acc ++ filter (λ p, p.1 = t) l) as H.
  { induction l as [|x l IH]; intros acc Hacc; simpl.
    - split; [done|]. intros t. by rewrite filter_nil, app_nil_r.
    - destruct (IH (insert_cmp resumables_cmp x acc) (insert_cmp_sorted x acc Hacc))
        as [Hs Hf].
      split; [done|]. intros t. rewrite Hf, insert_cmp_filter by done.
      rewrite <- app_assoc. f_equal. by rewrite <- filter_app. }
  destruct (H [] ltac:(constructor)) as [Hs Hf].
  split; [done|]. split; [done|].
  intros a b. unfold resumables_cmp.
  destruct (a.1 >? b.1) eqn:?; [split; [done|lia]|].
  destruct (a.1 <? b.1) eqn:?; done.
Qed.

End SortFacts.

Section QueryFacts.
Import ResumablesHandler.

Context (is_valid_uuid : string → bool) (md5sum : bytes → string).
Context (dir_stat : string → Z * Z) (user : string).

Local Abbreviation find_dir := (find_relevant_resumable_dir is_valid_uuid dir_stat user).
Local Abbreviation chunk_info_of := (get_resumable_chunk_info md5sum).
Local Abbreviation query := (get is_valid_uuid md5sum dir_stat user).

(** The uploads of the user, as the store lists them. *)
Definition owned (s : store) (id : string) : Prop :=
  id ∈ resumable_db_get_all_resumable_ids_for_user s user.

Global Instance owned_dec s id : Decision (owned s id).
Proof. unfold owned. apply _. Defined.

Lemma owned_record s id :
  owned s id ↔ ∃ u, u ∈ s ∧ u_id u = id ∧ u_owner u = user.
Proof.
  unfold owned, resumable_db_get_all_resumable_ids_for_user.
  rewrite list_elem_of_fmap. split.
  - intros (u & -> & [Hu Hin]%list_elem_of_filter). eauto.
  - intros (u & Hin & <- & Hu). exists u. split; [done|]. by apply list_elem_of_filter.
Qed.

Lemma find_by_id filename id w :
  find_dir filename (Some id) w
  = (Ret (if decide (owned (db w) id ∧ is_valid_uuid id = true) then Some id else None), w).
Proof.
  destruct w as [m s h e n]. unfold find_relevant_resumable_dir. run.
  do 2 f_equal. unfold owned.
  set (ids := resumable_db_get_all_resumable_ids_for_user s user).
  destruct (last (filter _ ids)) as [pr|] eqn:Hlast.
  - apply last_Some_elem_of, list_elem_of_filter in Hlast as [[Hvalid ->] Hin].
    by rewrite decide_True.
  - apply last_None in Hlast. rewrite decide_False; [done|].
    intros [Hin Hvalid].
    assert (id ∈ filter (λ pr, is_valid_uuid pr = true ∧ id = pr) ids) as Hf
      by (by apply list_elem_of_filter).
    rewrite Hlast in Hf. by apply elem_of_nil in Hf.
Qed.

(** X25: with an upload id (a non-empty one: an empty id counts as none),
    [find_relevant_resumable_dir] answers that id when it is a well-formed
    id of an upload the store lists for the user, and nothing otherwise:
    never the upload of somebody else. It does not look at the disk, and
    changes nothing. *)
Theorem find_by_id_only_own_uploads filename id w :
  id ≠ "" →
  find_dir filename (Some id) w
  = (Ret (if decide (owned (db w) id ∧ is_valid_uuid id = true) then Some id else None), w) ∧
  (owned (db w) id ↔ ∃ u, u ∈ db w ∧ u_id u = id ∧ u_owner u = user).
Proof. intros _. split; [apply find_by_id|apply owned_record]. Qed.

Lemma collect_spec l w :
  collect is_valid_uuid dir_stat l w
  = (Ret (omap (λ pr, if is_valid_uuid pr && bool_decide (is_Some (fs w !! Whole (UploadDir pr)))
                      then Some ((dir_stat pr).1, pr) else None) l), w).
Proof.
  destruct w as [m s h e n]. simpl.
  induction l as [|pr l IH]; [done|]. simpl. run. unfold bind in IH. rewrite IH.
  by destruct (is_valid_uuid pr && _).
Qed.

Lemma first_matching_sound filename cands : ∀ w id w',
  first_matching filename cands w = (Ret (Some id), w') →
  w' = w ∧ (∃ key, (key, id) ∈ cands) ∧
  fs w !! Whole (UploadDir id) = Some Directory ∧
  ∃ c, complete_chunks (fs w) id !! 0%nat = Some c ∧
       contains filename (entry_name c) = true.
Proof.
  induction cands as [|[key cand] cands IH]; intros [m s h e n] id w'; [done|].
  simpl. unfold find_nth_chunk, os_listdir. run.
  destruct (m !! Whole (UploadDir cand)) as [[|]|] eqn:Hdir; try done. simpl.
  change (filter _ (natural_sort _)) with (complete_chunks m cand).
  destruct (complete_chunks m cand !! 0%nat) as [c|] eqn:Hc; [|done]. simpl.
  destruct (contains filename (entry_name c)) eqn:Hcontains.
  - intros [= <- <-]. split; [done|]. split; [exists key; left|]. eauto.
  - intros Hrest. apply IH in Hrest as (-> & [key' Hin] & Hrest).
    split; [done|]. split; [exists key'; by right|done].
Qed.

(** X26: without an upload id, the upload selected is one of the user,
    with a well-formed id and its directory on disk, and the file name asked
    for occurs in the name of the first complete chunk of that directory.
    Nothing is changed by the search. *)
Theorem discovery_selects_own_upload_with_matching_name filename w id :
  (find_dir filename None w).1 = Ret (Some id) →
  (find_dir filename None w).2 = w ∧ owned (db w) id ∧ is_valid_uuid id = true ∧
  fs w !! Whole (UploadDir id) = Some Directory ∧
  ∃ c, complete_chunks (fs w) id !! 0%nat = Some c ∧
       contains filename (entry_name c) = true.
Proof.
  destruct (find_dir filename None w) as [r w'] eqn:Hfind. simpl. intros ->.
  revert Hfind.
  unfold find_relevant_resumable_dir. unfold bind at 1. unfold get_db.
  unfold bind at 1. rewrite collect_spec.
  intros (-> & [key Hin] & Hdir & Hc)%first_matching_sound.
  split; [done|]. split; [|split; [|done]].
  - rewrite sort_cmp_perm in Hin. apply list_elem_of_omap in Hin as (pr & Hpr & Hsome).
    destruct (is_valid_uuid pr && _); [|done]. by injection Hsome as _ <-.
  - rewrite sort_cmp_perm in Hin. apply list_elem_of_omap in Hin as (pr & Hpr & Hsome).
    destruct (is_valid_uuid pr) eqn:Hvalid; simpl in Hsome; [|done].
    destruct (bool_decide _); [|done]. by injection Hsome as _ <-.
Qed.










End QueryFacts.

(** *** Examples: queries on the uploads of [alice] *)

Lemma find_by_id_only_own_uploads_witness :
  let w := example_world upload_disk upload_store no_faults in
  ResumablesHandler.find_relevant_resumable_dir (λ _, true) (λ _, (4096, 0)) "alice"
    "x.bin" (Some "u1") w
  = (Ret (if decide (owned "alice" (db w) "u1" ∧ (λ _ : string, true) "u1" = true)
          then Some "u1" else None), w) ∧
  (owned "alice" (db w) "u1" ↔ ∃ u, u ∈ db w ∧ u_id u = "u1" ∧ u_owner u = "alice").
Proof.
  apply (find_by_id_only_own_uploads (λ _, true) (λ _, (4096, 0)) "alice" "x.bin" "u1"
           (example_world upload_disk upload_store no_faults)).
  discriminate.
Defined.

Lemma discovery_selects_own_upload_with_matching_name_witness :
  let w := example_world two_uploads_disk two_uploads_store no_faults in
  let r := ResumablesHandler.find_relevant_resumable_dir (λ _, true)
             (dir_stat_of (4096, 100) (4096, 200)) "alice" "x.bin" None w in
  r.2 = w ∧ owned "alice" (db w) "u1" ∧ (λ _ : string, true) "u1" = true ∧
  fs w !! Whole (UploadDir "u1") = Some Directory ∧
  ∃ c, complete_chunks (fs w) "u1" !! 0%nat = Some c ∧
       ResumablesHandler.contains "x.bin" (ResumablesHandler.entry_name c) = true.
Proof.
  apply (discovery_selects_own_upload_with_matching_name (λ _, true)
           (dir_stat_of (4096, 100) (4096, 200)) "alice" "x.bin"
           (example_world two_uploads_disk two_uploads_store no_faults) "u1").
  vm_compute. reflexivity.
Defined.





(** ** [ResumablesHandler]: deletion and what a report never says *)

Section DeleteFacts.

Context (is_valid_uuid : string → bool) (md5sum : bytes → string).
Context (dir_stat : string → Z * Z) (user : string).

Local Abbreviation delete_upload := (ResumablesHandler.delete user).


End DeleteFacts.

Section ReportFacts.
Import ResumablesHandler.

Context (is_valid_uuid : string → bool) (md5sum : bytes → string).
Context (dir_stat : string → Z * Z) (user : string).

Lemma info_no_recommendation depth : ∀ id chunks w ci w',
  info md5sum depth id chunks None None w = (Ret ci, w') →
  ci_recommendation ci = None ∧ ci_warning ci = None.
Proof.
  induction depth as [|depth IH]; intros id chunks w ci w'; [done|].
  simpl. unfold bind, the, ret, raise, try_except, get_db, stat_size, read_all, get_fs.
  repeat case_match; simplify_eq; try done; intros [= <- <-]; try done; eauto.
Qed.

Lemma chunk_info_no_recommendation id w ci w' :
  get_resumable_chunk_info md5sum id w = (Ret ci, w') →
  ci_recommendation ci = None ∧ ci_warning ci = None.
Proof.
  unfold get_resumable_chunk_info. unfold bind at 1.
  destruct (os_listdir id w) as [[l|ex] w1]; [|done].
  apply info_no_recommendation.
Qed.

Lemma list_one_spec pr w :
  ∃ o w', list_one is_valid_uuid md5sum pr w = (Ret o, w') ∧
          ∀ e, o = Some e →
               l_id e = pr ∧ is_valid_uuid pr = true ∧ l_chunk_size e ≠ 0 ∧
               l_next_offset e ≠ OffsetEnd.
Proof.
  unfold list_one. destruct (is_valid_uuid pr) eqn:Hvalid; [|by do 2 eexists].
  unfold bind at 1, attempt.
  destruct (get_resumable_chunk_info md5sum pr w) as [[ci|ex] w1] eqn:Hci;
    [|by do 2 eexists].
  destruct (chunk_info_no_recommendation pr w ci w1 Hci) as [Hrec Hwarn].
  destruct (ci_latest_size ci) as [size|]; [|by do 2 eexists].
  destruct (size =? 0) eqn:Hsize; [by do 2 eexists|].
  destruct w1 as [m1 s1 h1 e1 n1]. run. do 2 eexists. split; [done|].
  intros e [= <-]. simpl. rewrite Hwarn. simpl. repeat split; (done || lia).
Qed.

Lemma list_each_spec l : ∀ w,
  ∃ r w', list_each is_valid_uuid md5sum l w = (Ret r, w') ∧
          ∀ e, e ∈ r →
               l_id e ∈ l ∧ is_valid_uuid (l_id e) = true ∧ l_chunk_size e ≠ 0 ∧
               l_next_offset e ≠ OffsetEnd.
Proof.
  induction l as [|pr l IH]; intros w.
  - do 2 eexists. split; [done|]. by intros e ?%elem_of_nil.
  - destruct (list_one_spec pr w) as (o & w1 & Hone & Ho).
    destruct (IH w1) as (r & w2 & Heach & Hr).
    simpl. unfold bind at 1. rewrite Hone. unfold bind at 1. rewrite Heach.
    do 2 eexists. split; [done|].
    intros e [He|He]%elem_of_app.
    + destruct o as [e'|]; simpl in He; [|by apply elem_of_nil in He].
      apply list_elem_of_singleton in He as ->.
      destruct (Ho e' eq_refl) as (-> & ? & ? & ?). repeat split; try done. by left.
    + destruct (Hr e He) as (? & ? & ? & ?). repeat split; try done. by right.
Qed.

(** X30: what the resumables queries never say. [get_resumable_chunk_info]
    always returns without recommendation and without warning, so the
    answer for one upload never has [next_offset] ['end'] nor a warning,
    whatever the state of the disk and the store. The list of all
    resumables is always produced (a failure on one upload drops that
    upload); it holds only well-formed ids that the store lists for the
    user, none with a chunk size of zero and none with [next_offset]
    ['end']. *)
Theorem queries_never_recommend_end :
  (∀ filename id w status i w',
     get is_valid_uuid md5sum dir_stat user (Some filename) id w = (Ret (status, Some i), w') →
     ri_next_offset i ≠ OffsetEnd ∧ ri_warning i = None) ∧
  (∀ w, ∃ l w',
     list_all_resumables is_valid_uuid md5sum user w = (Ret l, w') ∧
     ∀ e, e ∈ l →
          l_id e ∈ resumable_db_get_all_resumable_ids_for_user (db w) user ∧
          is_valid_uuid (l_id e) = true ∧ l_chunk_size e ≠ 0 ∧
          l_next_offset e ≠ OffsetEnd).
Proof.
  split.
  - intros filename id w status i w'. unfold get, get_resumable_info.
    cbv [try_except the bind ret raise get_db].
    destruct (find_relevant_resumable_dir _ _ _ _ _ w) as [[[dir|]|ex] w1]; try done.
    destruct (get_resumable_chunk_info md5sum dir w1) as [[ci|ex] w2] eqn:Hci; [|done].
    destruct (chunk_info_no_recommendation dir w1 ci w2 Hci) as [Hrec Hwarn].
    intros [= <- <- <-]. simpl. by rewrite Hwarn.
  - intros w. unfold list_all_resumables. destruct w as [m s h e n]. run.
    apply list_each_spec.
Qed.

End ReportFacts.
